(** * Static-file HTTP responder (main/main.cpp): model and verification

    The C functions of [main/main.cpp] are embedded as Rocq functions.

    - A C string is modelled by the list of its characters before the
      terminating NUL; [cstr] takes that view of a raw byte buffer.
    - [snprintf (buf, n, ...)] leaves in [buf] the first [n - 1]
      characters of the formatted text.
    - Loops whose recursion is not structural are defined with Equations
      on a decreasing measure, so that every function is total.
    - Socket and file operations are run in a small state monad that
      records every call in a log. *)

From Equations Require Import Equations.
From Stdlib Require Import Ascii String.
From Stdlib Require Import Bool Arith ZArith Lia List Sorted.
Import ListNotations.

(** ** C strings *)

Module CStr.

Definition cstring := list ascii.

(** A literal. *)
Definition str (s : string) : cstring := list_ascii_of_string s.

Definition NUL : ascii := ascii_of_nat 0.
Definition CR : ascii := ascii_of_nat 13.
Definition LF : ascii := ascii_of_nat 10.

(** The C-string view of a byte buffer: the bytes before the first NUL. *)
Fixpoint cstr (buf : list ascii) : cstring :=
  match buf with
  | [] => []
  | c :: rest => if Ascii.eqb c NUL then [] else c :: cstr rest
  end.

Definition no_nul (s : cstring) : Prop := Forall (fun c => c <> NUL) s.

(** [strchr s c]: offset of the first [c] in [s], [None] for a null result. *)
Fixpoint strchr (s : cstring) (c : ascii) : option nat :=
  match s with
  | [] => None
  | x :: rest =>
      if Ascii.eqb x c then Some 0
      else match strchr rest c with
           | Some k => Some (S k)
           | None => None
           end
  end.

(** [strrchr s c]: offset of the last [c] in [s]. *)
Fixpoint strrchr (s : cstring) (c : ascii) : option nat :=
  match s with
  | [] => None
  | x :: rest =>
      match strrchr rest c with
      | Some k => Some (S k)
      | None => if Ascii.eqb x c then Some 0 else None
      end
  end.

Definition strlen (s : cstring) : nat := length s.

Definition cstring_eqb (a b : cstring) : bool :=
  if list_eq_dec ascii_dec a b then true else false.

(** [strcmp a b == 0]. *)
Definition strcmp_eq (a b : cstring) : bool := cstring_eqb a b.

(** [tolower] in the C locale. *)
Definition tolower (c : ascii) : ascii :=
  let n := nat_of_ascii c in
  if (65 <=? n) && (n <=? 90) then ascii_of_nat (n + 32) else c.

Definition code (c : ascii) : Z := Z.of_nat (nat_of_ascii c).

(** [strcasecmp a b]: difference of the first pair of characters that
    differ after [tolower]; the end of a string reads as 0. *)
Fixpoint strcasecmp (a b : cstring) : Z :=
  match a, b with
  | [], [] => 0
  | [], y :: _ => (0 - code (tolower y))%Z
  | x :: _, [] => code (tolower x)
  | x :: a', y :: b' =>
      if Ascii.eqb (tolower x) (tolower y) then strcasecmp a' b'
      else (code (tolower x) - code (tolower y))%Z
  end.

(** What [snprintf (buf, buflen, ...)] leaves in [buf] when the formatted
    text is [text]. *)
Definition snprintf (buflen : nat) (text : cstring) : cstring :=
  firstn (buflen - 1) text.

(** What [strncpy (dst, src, n)] leaves in [dst] (as far as it is
    terminated: for [n <= strlen src] no terminator is written). *)
Definition strncpy (src : cstring) (n : nat) : cstring := firstn n src.

(** The decimal digits of [n], least significant first; [fuel] bounds
    their number. *)
Fixpoint decimal_rev (fuel n : nat) : cstring :=
  match fuel with
  | 0 => []
  | S fuel' =>
      let digit := ascii_of_nat (48 + n mod 10) in
      if n <? 10 then [digit] else digit :: decimal_rev fuel' (n / 10)
  end.

(** [%d] / [%ld] of a non-negative number. *)
Definition decimal (n : nat) : cstring := rev (decimal_rev (S n) n).

(** The number a string of digits (least significant first) stands for. *)
Fixpoint value_rev (digits : cstring) : nat :=
  match digits with
  | [] => 0
  | d :: more => (nat_of_ascii d - 48) + 10 * value_rev more
  end.

End CStr.
Import CStr.

(** ** Configuration constants *)

Definition SPIFFS_BASE_PATH : cstring := str "/spiffs".
Definition FALLBACK_PATH : cstring := str "/spiffs/index.html".
Definition RECV_BUF_LEN : nat := 1024.
Definition FILE_CHUNK : nat := 1024.
Definition TMP_SIZE : nat := 256.  (* sizeof(tmp) in sanitize_path *)
Definition PATH_BUF_SIZE : nat := 256. (* req_path and safe_path in handle_client *)
Definition HEADER_SIZE : nat := 256.
Definition LONG_MAX : Z := 2147483647. (* long is 32 bits wide on the ESP32 *)

#[global] Arguments RECV_BUF_LEN : simpl never.
#[global] Arguments FILE_CHUNK : simpl never.
#[global] Arguments TMP_SIZE : simpl never.
#[global] Arguments PATH_BUF_SIZE : simpl never.
#[global] Arguments HEADER_SIZE : simpl never.

(** ** sanitize_path *)

(** [len] of the segment that starts at [seg]. *)
Definition seg_len (seg : cstring) : nat :=
  match strchr seg "/" with
  | Some k => k
  | None => strlen seg
  end.

(** [seg = next ? next + 1 : seg + len]. *)
Definition seg_advance (seg : cstring) : cstring :=
  match strchr seg "/" with
  | Some k => skipn (S k) seg
  | None => skipn (strlen seg) seg
  end.

(** [len == 2 && seg[0] == '.' && seg[1] == '.']. *)
Definition is_dotdot (seg : cstring) (len : nat) : bool :=
  (len =? 2) &&
  match seg with
  | c0 :: c1 :: _ => Ascii.eqb c0 "." && Ascii.eqb c1 "."
  | _ => false
  end.

Lemma strchr_lt (s : cstring) (c : ascii) (k : nat) :
  strchr s c = Some k -> k < length s.
Proof.
  revert k; induction s as [|x s IH]; simpl; intros k H; [discriminate|].
  destruct (Ascii.eqb x c).
  - injection H as <-. lia.
  - destruct (strchr s c) as [j|]; [|discriminate].
    injection H as <-. specialize (IH j eq_refl). lia.
Qed.

Lemma seg_advance_shorter (c : ascii) (s : cstring) :
  length (seg_advance (c :: s)) < length (c :: s).
Proof.
  unfold seg_advance, strlen.
  destruct (strchr (c :: s) "/") as [k|] eqn:E.
  - apply strchr_lt in E. rewrite length_skipn. simpl in *. lia.
  - rewrite length_skipn. simpl. lia.
Qed.

(** The segment loop: [seg] is the unread part of the request path, [tmp]
    the accumulator ([ti] is its length). *)
Equations sanitize_loop (seg tmp : cstring) : cstring by wf (length seg) lt :=
  sanitize_loop [] tmp := tmp;
  sanitize_loop (c :: s) tmp :=
  if negb (length tmp + 1 <? TMP_SIZE) then tmp
  else
    let len := seg_len (c :: s) in
    if len =? 0 then sanitize_loop (seg_advance (c :: s)) tmp
    else if is_dotdot (c :: s) len then sanitize_loop (seg_advance (c :: s)) tmp
    else if TMP_SIZE <=? length tmp + len + 1 then tmp
    else sanitize_loop (seg_advance (c :: s))
           ((if length tmp =? 0 then tmp else tmp ++ ["/"%char])
              ++ firstn len (c :: s)).
Next Obligation. apply seg_advance_shorter. Qed.
Next Obligation. apply seg_advance_shorter. Qed.
Next Obligation. apply seg_advance_shorter. Qed.

Definition index_or (tmp : cstring) : cstring :=
  match tmp with
  | [] => str "index.html"
  | _ => tmp
  end.

(** [p = req_path; if (p[0] == '/') p++]. *)
Definition skip_leading_slash (req : cstring) : cstring :=
  match req with
  | c :: rest => if Ascii.eqb c "/" then rest else req
  | [] => req
  end.

(** [req_path = None] is the null pointer. *)
Definition sanitize_path (req_path : option cstring) (buflen : nat) : cstring :=
  match req_path with
  | None => snprintf buflen (SPIFFS_BASE_PATH ++ str "/" ++ str "index.html")
  | Some req =>
      if strcmp_eq req (str "/") then
        snprintf buflen (SPIFFS_BASE_PATH ++ str "/" ++ str "index.html")
      else
        let p := skip_leading_slash req in
        let tmp := sanitize_loop p [] in
        snprintf buflen (SPIFFS_BASE_PATH ++ str "/" ++ index_or tmp)
  end.

(** *** The segment view of a path

    [split_slash s] lists the segments of [s] between its ['/'];
    [accumulate] is the segment loop told on that list. *)

Fixpoint split_slash (s : cstring) : list cstring :=
  match s with
  | [] => [[]]
  | c :: rest =>
      if Ascii.eqb c "/" then [] :: split_slash rest
      else match split_slash rest with
           | sg :: more => (c :: sg) :: more
           | [] => [[c]]
           end
  end.

Definition dotdot : cstring := str "..".

Definition has_dotdot_segment (s : cstring) : Prop := In dotdot (split_slash s).

(** Append one segment to the accumulator, with a separator unless the
    accumulator is empty. *)
Definition push_segment (acc sg : cstring) : cstring :=
  (if length acc =? 0 then acc else acc ++ ["/"%char]) ++ sg.

Fixpoint accumulate (segs : list cstring) (acc : cstring) : cstring :=
  match segs with
  | [] => acc
  | sg :: more =>
      if negb (length acc + 1 <? TMP_SIZE) then acc
      else if length sg =? 0 then accumulate more acc
      else if cstring_eqb sg dotdot then accumulate more acc
      else if TMP_SIZE <=? length acc + length sg + 1 then acc
      else accumulate more (push_segment acc sg)
  end.

(** The segments that are neither empty nor [".."]. *)
Definition kept (segs : list cstring) : list cstring :=
  filter (fun sg => negb (length sg =? 0) && negb (cstring_eqb sg dotdot)) segs.

Definition join_onto (acc : cstring) (segs : list cstring) : cstring :=
  fold_left push_segment segs acc.

(** [join segs]: the segments separated by ['/']. *)
Definition join (segs : list cstring) : cstring := join_onto [] segs.

(** The segments of a request path that the loop keeps. *)
Definition kept_segments (req : cstring) : list cstring :=
  kept (split_slash (skip_leading_slash req)).

Definition slash_free (sg : cstring) : Prop := strchr sg "/" = None.

(** A path is [clean] when it is empty or none of its segments is empty
    or [".."]. *)
Definition clean (acc : cstring) : Prop :=
  acc = [] \/
  Forall (fun sg => sg <> [] /\ sg <> dotdot) (split_slash acc).

(** A request path of 249 characters: one segment of 244 ['a'], then the
    segment ["..x"]. *)
Definition long_request_path : cstring :=
  str "/" ++ repeat "a"%char 244 ++ str "/..x".

(** ** get_mime_type *)

Definition MIME_OCTET : cstring := str "application/octet-stream".

Definition get_mime_type (path : cstring) : cstring :=
  match strrchr path "." with
  | None => MIME_OCTET
  | Some k =>
      let ext := skipn (S k) path in (* ext++ : skip '.' *)
      if (strcasecmp ext (str "html") =? 0)%Z then str "text/html; charset=utf-8"
      else if (strcasecmp ext (str "htm") =? 0)%Z then str "text/html; charset=utf-8"
      else if (strcasecmp ext (str "css") =? 0)%Z then str "text/css"
      else if (strcasecmp ext (str "js") =? 0)%Z then str "application/javascript"
      else if (strcasecmp ext (str "json") =? 0)%Z then str "application/json"
      else if (strcasecmp ext (str "png") =? 0)%Z then str "image/png"
      else if (strcasecmp ext (str "jpg") =? 0)%Z then str "image/jpeg"
      else if (strcasecmp ext (str "jpeg") =? 0)%Z then str "image/jpeg"
      else if (strcasecmp ext (str "gif") =? 0)%Z then str "image/gif"
      else if (strcasecmp ext (str "svg") =? 0)%Z then str "image/svg+xml"
      else if (strcasecmp ext (str "ico") =? 0)%Z then str "image/x-icon"
      else if (strcasecmp ext (str "txt") =? 0)%Z then str "text/plain; charset=utf-8"
      else MIME_OCTET
  end.

(** *** The resolver as the specification words it

    The extension after the last ['.'], lower-cased, looked up in a
    fixed table. *)

Definition mime_table : list (cstring * cstring) :=
  [ (str "html", str "text/html; charset=utf-8");
    (str "htm", str "text/html; charset=utf-8");
    (str "css", str "text/css");
    (str "js", str "application/javascript");
    (str "json", str "application/json");
    (str "png", str "image/png");
    (str "jpg", str "image/jpeg");
    (str "jpeg", str "image/jpeg");
    (str "gif", str "image/gif");
    (str "svg", str "image/svg+xml");
    (str "ico", str "image/x-icon");
    (str "txt", str "text/plain; charset=utf-8") ].

Fixpoint table_lookup (key : cstring) (table : list (cstring * cstring))
  : option cstring :=
  match table with
  | [] => None
  | (k, v) :: more => if cstring_eqb key k then Some v else table_lookup key more
  end.

Definition lowercase (s : cstring) : cstring := map tolower s.

(** The part of [path] after its last ['.'], if it has one. *)
Fixpoint extension_of (path : cstring) : option cstring :=
  match path with
  | [] => None
  | c :: rest =>
      match extension_of rest with
      | Some ext => Some ext
      | None => if Ascii.eqb c "." then Some rest else None
      end
  end.

Definition resolve_spec (path : cstring) : cstring :=
  match extension_of path with
  | None => MIME_OCTET
  | Some ext =>
      match table_lookup (lowercase ext) mime_table with
      | Some mime => mime
      | None => MIME_OCTET
      end
  end.

(** ** parse_request_path *)

(** [req] is the C string in the receive buffer; the result is the C
    string left in [pathbuf]. [pathbuflen - 1] is the C subtraction for
    [1 <= pathbuflen]. *)
Definition parse_request_path (req : cstring) (pathbuflen : nat) : cstring :=
  match strchr req " " with
  | None => strncpy (str "/") pathbuflen
  | Some i1 =>
      let after_sp1 := skipn (S i1) req in
      match strchr after_sp1 " " with
      | None => strncpy (str "/") pathbuflen
      | Some len =>
          let len := if pathbuflen <=? len then pathbuflen - 1 else len in
          firstn len after_sp1
      end
  end.

(** *** The parser as the specification words it: the two spaces are
    looked for in the first line only. *)

Fixpoint first_line (req : cstring) : cstring :=
  match req with
  | [] => []
  | c :: rest =>
      if Ascii.eqb c CR || Ascii.eqb c LF then [] else c :: first_line rest
  end.

Definition parse_first_line_spec (req : cstring) (pathbuflen : nat) : cstring :=
  let line := first_line req in
  match strchr line " " with
  | None => str "/"
  | Some i1 =>
      match strchr (skipn (S i1) line) " " with
      | None => str "/"
      | Some len => firstn (Nat.min len (pathbuflen - 1)) (skipn (S i1) line)
      end
  end.

(** A request whose first line has a single space: the second space of
    the buffer is in the header line that follows. *)
Definition request_without_version : cstring :=
  str "GET /" ++ [CR; LF] ++ str "Host: x" ++ [CR; LF] ++ [CR; LF].

(** ** Sockets and files *)

Inductive event : Type :=
| EvRecv (r : Z)                       (* recv returned r *)
| EvSend (data : list ascii) (s : Z)   (* send of data returned s *)
| EvFopen (path : cstring) (ok : bool)
| EvFclose (path : cstring)
| EvShutdown
| EvClose.

(** What one call of [send] meets: an error, or room for [S k] bytes (a
    blocking send of a non-empty buffer that does not fail takes at
    least one byte). *)
Inductive send_outcome : Type :=
| SendError
| SendRoom (k : nat).

(** The state threaded through the handler: the number of [send] calls
    made so far and the log of all calls. *)
Record conn : Type := mkConn { sends : nat; log : list event }.

Record FILE : Type := mkFile { f_path : cstring; f_data : list ascii; f_pos : nat }.

Definition IO (A : Type) : Type := conn -> A * conn.

Definition ret {A} (a : A) : IO A := fun st => (a, st).

Definition bind {A B} (m : IO A) (k : A -> IO B) : IO B :=
  fun st => let (a, st') := m st in k a st'.

Declare Scope io_scope.
Delimit Scope io_scope with io.
Notation "x <- m ;; k" := (bind m (fun x => k))
  (at level 61, m at next level, right associativity) : io_scope.
Notation "m ;;; k" := (bind m (fun _ => k))
  (at level 61, right associativity) : io_scope.

Definition emit (e : event) : IO unit :=
  fun st => (tt, mkConn (sends st) (log st ++ [e])).

(** The bytes a [send] event put on the wire. *)
Definition accepted (e : event) : list ascii :=
  match e with
  | EvSend data s => firstn (Z.to_nat s) data
  | _ => []
  end.

Definition wire (l : list event) : list ascii := flat_map accepted l.

Definition is_send_error (e : event) : bool :=
  match e with
  | EvSend _ s => (s <? 0)%Z
  | _ => false
  end.

Definition is_send (e : event) : bool :=
  match e with
  | EvSend _ _ => true
  | _ => false
  end.

(** No [send] of the events reported an error. *)
Definition no_send_error (l : list event) : bool :=
  forallb (fun e => negb (is_send_error e)) l.

(** The calls [send_file] makes: on the file and [send]. *)
Definition is_file_or_send (e : event) : bool :=
  match e with
  | EvSend _ _ | EvFopen _ _ | EvFclose _ => true
  | _ => false
  end.

Definition is_recv (e : event) : bool :=
  match e with
  | EvRecv _ => true
  | _ => false
  end.

Definition is_close (e : event) : bool :=
  match e with
  | EvClose => true
  | _ => false
  end.

Definition count (p : event -> bool) (l : list event) : nat :=
  length (filter p l).

(** The data of the first [send] among the events: the head of the
    response. *)
Fixpoint first_sent (l : list event) : option (list ascii) :=
  match l with
  | [] => None
  | EvSend data _ :: _ => Some data
  | _ :: more => first_sent more
  end.

Definition CRLF : cstring := [CR; LF].

Definition BODY_404 : cstring :=
  str "<html><body><h1>404 Not Found</h1></body></html>".

Definition header_404_text (body_len : nat) : cstring :=
  str "HTTP/1.1 404 Not Found" ++ CRLF ++
  str "Content-Type: text/html; charset=utf-8" ++ CRLF ++
  str "Content-Length: " ++ decimal body_len ++ CRLF ++
  str "Connection: close" ++ CRLF ++
  CRLF.

Definition header_200_text (mime : cstring) (filesize : nat) : cstring :=
  str "HTTP/1.1 200 OK" ++ CRLF ++
  str "Content-Type: " ++ mime ++ CRLF ++
  str "Content-Length: " ++ decimal filesize ++ CRLF ++
  str "Connection: close" ++ CRLF ++
  CRLF.

(** The headers as [send_404] and [send_file] leave them in [header]. *)
Definition HEADER_404 : cstring :=
  snprintf HEADER_SIZE (header_404_text (strlen BODY_404)).

Definition HEADER_200 (fullpath : cstring) (filesize : nat) : cstring :=
  snprintf HEADER_SIZE (header_200_text (get_mime_type fullpath) filesize).

Definition fseek_end (f : FILE) : FILE := mkFile (f_path f) (f_data f) (length (f_data f)).
Definition fseek_set (f : FILE) : FILE := mkFile (f_path f) (f_data f) 0.
Definition ftell (f : FILE) : nat := f_pos f.

(** [fread (buf, 1, n, f)]: the bytes read and the advanced file. *)
Definition fread (n : nat) (f : FILE) : list ascii * FILE :=
  let got := firstn n (skipn (f_pos f) (f_data f)) in
  (got, mkFile (f_path f) (f_data f) (f_pos f + length got)).

(** [inspect x] keeps the equation between [x] and the pattern it is
    matched against, for the termination proofs of the loops. *)
Definition inspect {A : Type} (x : A) : { y : A | x = y } := exist _ x eq_refl.

Lemma fread_advances (n : nat) (f f1 : FILE) (buf : list ascii) :
  fread n f = (buf, f1) ->
  f_data f1 = f_data f /\ f_pos f1 = f_pos f + length buf /\
  length buf <= length (f_data f) - f_pos f.
Proof.
  unfold fread. intros H.
  assert (buf = firstn n (skipn (f_pos f) (f_data f))) as Hb
    by exact (eq_sym (f_equal fst H)).
  assert (f1 = mkFile (f_path f) (f_data f) (f_pos f + length buf)) as ->
    by (rewrite Hb; exact (eq_sym (f_equal snd H))).
  cbn [f_data f_pos]. repeat split.
  rewrite Hb, length_firstn, length_skipn. lia.
Qed.

Section Server.

(** The mounted filesystem: the contents of the file [fopen (path, "rb")]
    opens, [None] when the open fails. *)
Variable fs : cstring -> option (list ascii).

(** The transport: what the [i]-th [send] on the connection meets. *)
Variable net : nat -> send_outcome.

(** What [recv] delivers: [None] for an error, else the bytes pending on
    the connection (none when the peer has closed). *)
Variable rx : option (list ascii).

Definition send (data : list ascii) : IO Z :=
  fun st =>
    let s := match net (sends st) with
             | SendError => (-1)%Z
             | SendRoom k => Z.of_nat (Nat.min (S k) (length data))
             end in
    (s, mkConn (S (sends st)) (log st ++ [EvSend data s])).

Definition recv (maxlen : nat) : IO (Z * list ascii) :=
  fun st =>
    match rx with
    | None => (((-1)%Z, []), mkConn (sends st) (log st ++ [EvRecv (-1)%Z]))
    | Some pending =>
        let got := firstn maxlen pending in
        let r := Z.of_nat (length got) in
        ((r, got), mkConn (sends st) (log st ++ [EvRecv r]))
    end.

Definition fopen (path : cstring) : IO (option FILE) :=
  fun st =>
    match fs path with
    | None => (None, mkConn (sends st) (log st ++ [EvFopen path false]))
    | Some data =>
        (Some (mkFile path data 0),
         mkConn (sends st) (log st ++ [EvFopen path true]))
    end.

Definition fclose (f : FILE) : IO unit := emit (EvFclose (f_path f)).
Definition shutdown : IO unit := emit EvShutdown.
Definition close : IO unit := emit EvClose.

(** *** send_404 *)

Definition send_404 : IO unit :=
  (let body := BODY_404 in
   let body_len := strlen body in
   let header := snprintf HEADER_SIZE (header_404_text body_len) in
   send header ;;;
   send body ;;;
   ret tt)%io.

(** *** send_file *)

Lemma send_progress (data : list ascii) (st st' : conn) (s : Z) :
  send data st = (s, st') -> data <> [] -> (s <? 0)%Z = false ->
  0 < Z.to_nat s <= length data.
Proof.
  unfold send. intros H Hd Hs. injection H as <- _.
  destruct (net (sends st)); [discriminate|].
  rewrite Nat2Z.id. destruct data; [congruence|]. simpl. lia.
Qed.

#[local] Obligation Tactic := idtac.

(** The inner loop [while (sent < r)]: [buf] is the chunk read ([r] its
    length). The result is [false] when a [send] failed: the file has
    then been closed and [send_file] returns. *)
Equations send_chunk (f : FILE) (buf : list ascii) (sent : nat) (st : conn)
  : bool * conn by wf (length buf - sent) lt :=
  send_chunk f buf sent st with inspect (sent <? length buf) := {
  | exist _ false _ := (true, st)
  | exist _ true Hlt with inspect (send (skipn sent buf) st) := {
      | exist _ (s, st1) Hs with inspect (s <? 0)%Z := {
          | exist _ true _ := (false, snd (fclose f st1))
          | exist _ false Hok := send_chunk f buf (sent + Z.to_nat s) st1 } } }.
Next Obligation.
  intros f buf sent Hlt st s Hok st1 Hs _. simpl in Hlt, Hok, Hs.
  apply Nat.ltb_lt in Hlt.
  assert (skipn sent buf <> []) as Hne.
  { intros E. apply (f_equal (@length _)) in E. rewrite length_skipn in E.
    simpl in E. lia. }
  pose proof (send_progress _ _ _ _ Hs Hne Hok). lia.
Qed.

(** The outer loop [while ((r = fread (...)) > 0)]. The result is [true]
    when the loop ran to the end of the file. *)
#[local] Opaque FILE_CHUNK.
Equations send_body (f : FILE) (st : conn) : bool * conn
  by wf (length (f_data f) - f_pos f) lt :=
  send_body f st with inspect (fread FILE_CHUNK f) := {
  | exist _ (buf, f1) Hr with inspect (0 <? length buf) := {
      | exist _ false _ := (true, st)
      | exist _ true Hpos with inspect (send_chunk f1 buf 0 st) := {
          | exist _ (false, st1) _ := (false, st1)
          | exist _ (true, st1) _ := send_body f1 st1 } } }.
Next Obligation.
  intros f buf Hpos f1 Hr st st1 _ _. cbv beta in Hpos, Hr.
  apply Nat.ltb_lt in Hpos.
  destruct (fread_advances _ _ _ _ Hr) as (Hd & Hp & Hle).
  rewrite Hd, Hp. lia.
Qed.
#[local] Transparent FILE_CHUNK.

Definition fallback_measure (isFallback : bool) : nat :=
  if isFallback then 0 else 1.

Equations send_file (fullpath : cstring) (isFallback : bool) (st : conn)
  : unit * conn by wf (fallback_measure isFallback) lt :=
  send_file fullpath isFallback st with fopen fullpath st := {
  | (None, st1) with isFallback := {
      | false := send_file FALLBACK_PATH true st1
      | true := send_404 st1 }
  | (Some f, st1) :=
      (let f := fseek_end f in
       let filesize := ftell f in
       let f := fseek_set f in
       let mime := get_mime_type fullpath in
       let header := snprintf HEADER_SIZE (header_200_text mime filesize) in
       send header ;;;
       finished <- send_body f ;;
       if finished then fclose f else ret tt)%io st1 }.
Next Obligation. intros. unfold fallback_measure. lia. Qed.

(** *** handle_client *)

Definition handle_client : IO unit :=
  (rcv <- recv RECV_BUF_LEN ;;
   let (r, recv_buf) := rcv in
   if (r <=? 0)%Z then close
   else
     let req_path := parse_request_path (cstr recv_buf) PATH_BUF_SIZE in
     let safe_path := sanitize_path (Some req_path) PATH_BUF_SIZE in
     send_file safe_path false ;;;
     shutdown ;;;
     close)%io.

End Server.

(** *** Concrete environments, for the examples *)

(** A filesystem that holds only the index document. *)
Definition fs_index_only (path : cstring) : option (list ascii) :=
  if cstring_eqb path FALLBACK_PATH then Some (str "<h1>hi</h1>") else None.

(** An empty filesystem. *)
Definition fs_empty (path : cstring) : option (list ascii) := None.

(** A transport that takes every buffer whole (room for 1024 bytes). *)
Definition net_whole (i : nat) : send_outcome := SendRoom 1023.

(** A transport that takes one byte per call; it never fails. *)
Definition net_bytewise (i : nat) : send_outcome := SendRoom 0.

(** A transport that takes the first buffer whole and then one byte
    per call. *)
Definition net_whole_then_bytewise (i : nat) : send_outcome :=
  if i =? 0 then SendRoom 1023 else SendRoom 0.

(** A transport whose third [send] fails. *)
Definition net_fails_third (i : nat) : send_outcome :=
  if i =? 2 then SendError else SendRoom 3.

Definition initial : conn := mkConn 0 [].

Definition GET_ROOT : list ascii := str "GET / HTTP/1.1" ++ [CR; LF] ++ [CR; LF].

(** The response of the handler as a function of the filesystem and of
    what [recv] delivers. *)
Definition response (fs : cstring -> option (list ascii))
    (rx : option (list ascii)) : list ascii :=
  match rx with
  | None => []
  | Some pending =>
      let recv_buf := firstn RECV_BUF_LEN pending in
      if length recv_buf =? 0 then []
      else
        let safe_path :=
          sanitize_path
            (Some (parse_request_path (cstr recv_buf) PATH_BUF_SIZE))
            PATH_BUF_SIZE in
        match fs safe_path, fs FALLBACK_PATH with
        | Some data, _ => HEADER_200 safe_path (length data) ++ data
        | None, Some data => HEADER_200 FALLBACK_PATH (length data) ++ data
        | None, None => HEADER_404 ++ BODY_404
        end
  end.

(** No [send] reports an error. *)
Definition never_fails (net : nat -> send_outcome) : Prop :=
  forall i : nat, net i <> SendError.

(** A [send] that took its whole buffer. *)
Definition sent_whole (e : event) : bool :=
  match e with
  | EvSend data s => (s =? Z.of_nat (length data))%Z
  | _ => true
  end.

(** The first [send] among the events took its whole buffer. In a run
    of the handler the first [send] is the one that carries the header. *)
Fixpoint first_send_whole (l : list event) : bool :=
  match l with
  | [] => true
  | EvSend data s :: _ => (s =? Z.of_nat (length data))%Z
  | _ :: more => first_send_whole more
  end.

(** Every [send] among the events took its whole buffer. *)
Definition all_sends_whole (l : list event) : bool := forallb sent_whole l.

(** The characters of the segments, counting one separator each. *)
Definition seg_total (segs : list cstring) : nat :=
  fold_right (fun sg n => length sg + 1 + n) 0 segs.

(** *** More readings of the log *)

Definition is_fopen (e : event) : bool :=
  match e with
  | EvFopen _ _ => true
  | _ => false
  end.

Definition is_fopen_ok (e : event) : bool :=
  match e with
  | EvFopen _ true => true
  | _ => false
  end.

Definition is_fclose (e : event) : bool :=
  match e with
  | EvFclose _ => true
  | _ => false
  end.

(** A [send] that offers between 1 and [FILE_CHUNK] bytes. *)
Definition offers_chunk (e : event) : Prop :=
  match e with
  | EvSend data _ => 1 <= length data <= FILE_CHUNK
  | _ => False
  end.

(** ** http_server_task *)

(** Whether [socket], [bind] and [listen] succeed. *)
Record listen_setup : Type :=
  mkSetup { socket_ok : bool; bind_ok : bool; listen_ok : bool }.

(** One turn of the accept loop: [accept] fails, or it yields a
    connection, given by its transport and by what its [recv] delivers. *)
Inductive accept_outcome : Type :=
| AcceptFail
| Accepted (net : nat -> send_outcome) (rx : option (list ascii)).

Inductive task_event : Type :=
| TSocket (ok : bool)
| TSetsockopt
| TBind (ok : bool)
| TListen (ok : bool)
| TAccept (ok : bool)
| TClient (k : nat) (e : event)  (* a call on the k-th accepted socket *)
| TCloseListen                   (* close (listen_sock) *)
| TTaskDelete.

(** The turns of [while (1)] that the given outcomes of [accept] drive;
    [k] connections have been accepted before. *)
Fixpoint accept_loop (fs : cstring -> option (list ascii)) (k : nat)
    (accepts : list accept_outcome) : list task_event :=
  match accepts with
  | [] => []
  | AcceptFail :: more => TAccept false :: accept_loop fs k more
  | Accepted net rx :: more =>
      TAccept true ::
      map (TClient k) (log (snd (handle_client fs net rx initial)))
      ++ accept_loop fs (S k) more
  end.

Definition http_server_task (fs : cstring -> option (list ascii))
    (setup : listen_setup) (accepts : list accept_outcome) : list task_event :=
  if negb (socket_ok setup) then [TSocket false; TTaskDelete]
  else
    TSocket true :: TSetsockopt ::
    (if negb (bind_ok setup) then [TBind false; TCloseListen; TTaskDelete]
     else
       TBind true ::
       (if negb (listen_ok setup)
        then [TListen false; TCloseListen; TTaskDelete]
        else TListen true :: accept_loop fs 0 accepts)).

(** The calls made on the [k]-th accepted socket. *)
Definition client_log (k : nat) (l : list task_event) : list event :=
  flat_map (fun t => match t with
                     | TClient j e => if j =? k then [e] else []
                     | _ => []
                     end) l.

(** The accepted sockets the calls of the log are made on, in order. *)
Definition client_ids (l : list task_event) : list nat :=
  flat_map (fun t => match t with
                     | TClient j _ => [j]
                     | _ => []
                     end) l.

(** The connections among the outcomes of [accept]. *)
Definition connections (accepts : list accept_outcome)
  : list ((nat -> send_outcome) * option (list ascii)) :=
  flat_map (fun a => match a with
                     | AcceptFail => []
                     | Accepted net rx => [(net, rx)]
                     end) accepts.

Definition is_taccept (t : task_event) : bool :=
  match t with
  | TAccept _ => true
  | _ => false
  end.

Definition is_tclient (t : task_event) : bool :=
  match t with
  | TClient _ _ => true
  | _ => false
  end.

Definition is_tclose_listen (t : task_event) : bool :=
  match t with
  | TCloseListen => true
  | _ => false
  end.

Definition is_ttask_delete (t : task_event) : bool :=
  match t with
  | TTaskDelete => true
  | _ => false
  end.

Definition tcount (p : task_event -> bool) (l : list task_event) : nat :=
  length (filter p l).

(** ** Properties of the C-string helpers *)

Lemma cstring_eqb_eq (a b : cstring) : cstring_eqb a b = true <-> a = b.
Proof.
  unfold cstring_eqb. destruct (list_eq_dec ascii_dec a b); split;
    intros; auto; discriminate.
Qed.

Lemma strcmp_eq_eq (a b : cstring) : strcmp_eq a b = true <-> a = b.
Proof. apply cstring_eqb_eq. Qed.

Lemma strchr_firstn_skipn (s : cstring) (c : ascii) (k : nat) :
  strchr s c = Some k ->
  s = firstn k s ++ c :: skipn (S k) s /\ strchr (firstn k s) c = None.
Proof.
  revert k; induction s as [|x s IH]; simpl; intros k H; [discriminate|].
  destruct (Ascii.eqb x c) eqn:E.
  - injection H as <-. apply Ascii.eqb_eq in E. subst. simpl. auto.
  - destruct (strchr s c) as [j|]; [|discriminate].
    injection H as <-. destruct (IH j eq_refl) as [H1 H2].
    simpl. rewrite E, H2. split; [f_equal; exact H1 | reflexivity].
Qed.

Lemma strchr_none_app (a b : cstring) (c : ascii) :
  strchr a c = None ->
  strchr (a ++ b) c = option_map (fun k => length a + k) (strchr b c).
Proof.
  induction a as [|x a IH]; simpl; intros H.
  - destruct (strchr b c); reflexivity.
  - destruct (Ascii.eqb x c); [discriminate|].
    destruct (strchr a c); [discriminate|].
    rewrite (IH eq_refl). destruct (strchr b c); reflexivity.
Qed.

Lemma strchr_none_iff (s : cstring) (c : ascii) :
  strchr s c = None <-> ~ In c s.
Proof.
  induction s as [|x s IH]; simpl.
  - tauto.
  - destruct (Ascii.eqb x c) eqn:E.
    + apply Ascii.eqb_eq in E. split; [discriminate | intros H; exfalso; auto].
    + apply Ascii.eqb_neq in E. destruct (strchr s c).
      * split; [discriminate|]. intros H. exfalso. apply H. right.
        destruct (in_dec ascii_dec c s) as [Hi|Hn]; [exact Hi|].
        destruct IH as [_ IH]. specialize (IH Hn). discriminate.
      * split; [|reflexivity]. intros _ [H|H]; [auto|].
        destruct IH as [IH _]. exact (IH eq_refl H).
Qed.

(** ** The segment loop follows the segment list *)

Lemma split_slash_some (s : cstring) (k : nat) :
  strchr s "/" = Some k ->
  split_slash s = firstn k s :: split_slash (skipn (S k) s).
Proof.
  revert k; induction s as [|x s IH]; simpl; intros k H; [discriminate|].
  destruct (Ascii.eqb x "/").
  - injection H as <-. reflexivity.
  - destruct (strchr s "/") as [j|]; [|discriminate].
    injection H as <-. rewrite (IH j eq_refl). reflexivity.
Qed.

Lemma split_slash_none (s : cstring) :
  strchr s "/" = None -> split_slash s = [s].
Proof.
  induction s as [|x s IH]; simpl; intros H; [reflexivity|].
  destruct (Ascii.eqb x "/"); [discriminate|].
  destruct (strchr s "/"); [discriminate|].
  rewrite (IH eq_refl). reflexivity.
Qed.

Lemma is_dotdot_firstn (seg : cstring) (len : nat) :
  len <= length seg ->
  is_dotdot seg len = cstring_eqb (firstn len seg) dotdot.
Proof.
  intros Hlen. unfold is_dotdot.
  destruct (cstring_eqb (firstn len seg) dotdot) eqn:E.
  - apply cstring_eqb_eq in E.
    assert (len = 2) as ->.
    { apply (f_equal (@length _)) in E. rewrite length_firstn in E.
      simpl in E. lia. }
    destruct seg as [|c0 [|c1 r]]; try discriminate.
    simpl in E. injection E as -> ->. reflexivity.
  - destruct (len =? 2) eqn:E2; [|reflexivity]. apply Nat.eqb_eq in E2. subst.
    destruct seg as [|c0 [|c1 r]]; try reflexivity. simpl.
    destruct (Ascii.eqb c0 ".") eqn:E0; [|reflexivity].
    destruct (Ascii.eqb c1 ".") eqn:E1; [|reflexivity].
    apply Ascii.eqb_eq in E0, E1. subst. simpl in E.
    unfold cstring_eqb, dotdot in E. simpl in E.
    destruct (list_eq_dec ascii_dec ["."%char; "."%char] ["."%char; "."%char]);
      [discriminate | congruence].
Qed.

Lemma sanitize_loop_accumulate (seg tmp : cstring) :
  sanitize_loop seg tmp = accumulate (split_slash seg) tmp.
Proof.
  funelim (sanitize_loop seg tmp).
  - simpl. destruct (negb _); reflexivity.
  - destruct (negb (length tmp + 1 <? TMP_SIZE)) eqn:Ecap.
    + destruct (split_slash (c :: s)) eqn:Es; simpl; [reflexivity|].
      rewrite Ecap. reflexivity.
    + unfold seg_len, seg_advance, strlen in *.
      destruct (strchr (c :: s) "/") as [k|] eqn:Ek.
      * rewrite (split_slash_some _ _ Ek). cbn [accumulate]. rewrite Ecap.
        pose proof (strchr_lt _ _ _ Ek) as Hk.
        rewrite (is_dotdot_firstn (c :: s)) by lia.
        rewrite length_firstn, Nat.min_l by lia.
        destruct (k =? 0); [auto|].
        destruct (cstring_eqb (firstn k (c :: s)) dotdot); [auto|].
        destruct (TMP_SIZE <=? length tmp + k + 1); [reflexivity|].
        unfold push_segment. auto.
      * rewrite (split_slash_none _ Ek). cbn [accumulate]. rewrite Ecap.
        rewrite (is_dotdot_firstn (c :: s)) by lia.
        rewrite firstn_all, skipn_all in *.
        simp sanitize_loop in *.
        destruct (length (c :: s) =? 0); [auto|].
        destruct (cstring_eqb (c :: s) dotdot); [auto|].
        destruct (TMP_SIZE <=? length tmp + length (c :: s) + 1); reflexivity.
Qed.

(** ** sanitize_path: what the accumulator holds *)

Lemma split_slash_nonempty (s : cstring) : split_slash s <> [].
Proof.
  destruct s as [|x s]; simpl; [discriminate|].
  destruct (Ascii.eqb x "/"); [discriminate|].
  destruct (split_slash s); discriminate.
Qed.

Lemma split_slash_app (a b : cstring) :
  split_slash (a ++ "/"%char :: b) = split_slash a ++ split_slash b.
Proof.
  induction a as [|x a IH]; simpl.
  - reflexivity.
  - destruct (Ascii.eqb x "/"); [rewrite IH; reflexivity|].
    rewrite IH. pose proof (split_slash_nonempty a).
    destruct (split_slash a); [congruence | reflexivity].
Qed.

Lemma split_slash_slash_free (s : cstring) : Forall slash_free (split_slash s).
Proof.
  induction s as [|x s IH]; simpl.
  - repeat constructor.
  - destruct (Ascii.eqb x "/") eqn:E.
    + constructor; [reflexivity | exact IH].
    + destruct (split_slash s) as [|sg more].
      * repeat constructor. unfold slash_free. simpl. rewrite E. reflexivity.
      * inversion IH as [|? ? Hsg Hmore]; subst. constructor; [|exact Hmore].
        unfold slash_free in *. simpl. rewrite E, Hsg. reflexivity.
Qed.

Lemma split_slash_push (acc sg : cstring) :
  slash_free sg ->
  split_slash (push_segment acc sg) =
    if length acc =? 0 then [sg] else split_slash acc ++ [sg].
Proof.
  intros Hsg. unfold push_segment.
  destruct acc as [|x acc]; simpl length; cbn [Nat.eqb].
  - simpl. apply split_slash_none. exact Hsg.
  - rewrite <- app_assoc. simpl app at 2.
    rewrite split_slash_app, (split_slash_none _ Hsg). reflexivity.
Qed.

Lemma clean_push (acc sg : cstring) :
  clean acc -> slash_free sg -> sg <> [] -> sg <> dotdot ->
  clean (push_segment acc sg).
Proof.
  intros Hacc Hfree Hne Hdd. right. rewrite (split_slash_push _ _ Hfree).
  destruct acc as [|x acc]; simpl length; cbn [Nat.eqb].
  - repeat constructor; assumption.
  - destruct Hacc as [Hacc|Hacc]; [discriminate|].
    apply Forall_app. split; [exact Hacc|]. repeat constructor; assumption.
Qed.

Lemma accumulate_clean (segs : list cstring) (acc : cstring) :
  Forall slash_free segs -> clean acc -> clean (accumulate segs acc).
Proof.
  revert acc; induction segs as [|sg more IH]; intros acc Hfree Hacc;
    cbn [accumulate].
  - exact Hacc.
  - inversion Hfree as [|? ? Hsg Hmore]; subst.
    destruct (negb (length acc + 1 <? TMP_SIZE)); [exact Hacc|].
    destruct (length sg =? 0) eqn:E0; [auto|].
    destruct (cstring_eqb sg dotdot) eqn:Edd; [auto|].
    destruct (TMP_SIZE <=? length acc + length sg + 1); [exact Hacc|].
    apply IH; [exact Hmore|]. apply clean_push; auto.
    + intros ->. discriminate.
    + intros Heq. apply cstring_eqb_eq in Heq. congruence.
Qed.

Lemma clean_no_dotdot (acc : cstring) : clean acc -> ~ has_dotdot_segment acc.
Proof.
  unfold has_dotdot_segment. intros [->|H] Hin.
  - simpl in Hin. destruct Hin as [Hin|[]]. discriminate.
  - rewrite Forall_forall in H. destruct (H _ Hin) as [_ Hdd]. congruence.
Qed.

(** Whatever the request path, the accumulator never holds a [".."]
    segment (nor an empty one). *)
Lemma sanitize_loop_clean (seg : cstring) : clean (sanitize_loop seg []).
Proof.
  rewrite sanitize_loop_accumulate.
  apply accumulate_clean; [apply split_slash_slash_free | left; reflexivity].
Qed.

Lemma sanitize_loop_bounded (seg tmp : cstring) :
  length tmp < TMP_SIZE -> length (sanitize_loop seg tmp) < TMP_SIZE.
Proof.
  rewrite sanitize_loop_accumulate. generalize (split_slash seg) as segs.
  intros segs; revert tmp; induction segs as [|sg more IH]; intros tmp H;
    cbn [accumulate].
  - exact H.
  - destruct (negb (length tmp + 1 <? TMP_SIZE)); [exact H|].
    destruct (length sg =? 0); [auto|].
    destruct (cstring_eqb sg dotdot); [auto|].
    destruct (TMP_SIZE <=? length tmp + length sg + 1) eqn:E; [exact H|].
    apply IH. apply Nat.leb_gt in E. unfold push_segment.
    unfold TMP_SIZE in *.
    destruct (length tmp =? 0); rewrite ?length_app; simpl length; lia.
Qed.

(** *** The accumulator when nothing overflows *)

Lemma push_segment_length (acc sg : cstring) :
  length acc + length sg <= length (push_segment acc sg).
Proof.
  unfold push_segment. destruct (length acc =? 0);
    rewrite ?length_app; simpl; lia.
Qed.

Lemma join_onto_length (segs : list cstring) (acc : cstring) :
  length acc <= length (join_onto acc segs).
Proof.
  revert acc; induction segs as [|sg more IH]; intros acc; simpl; [lia|].
  specialize (IH (push_segment acc sg)).
  pose proof (push_segment_length acc sg). unfold join_onto in *. lia.
Qed.

Lemma kept_cons (sg : cstring) (more : list cstring) :
  kept (sg :: more) =
    if negb (length sg =? 0) && negb (cstring_eqb sg dotdot)
    then sg :: kept more else kept more.
Proof. reflexivity. Qed.

Lemma join_onto_cons (acc sg : cstring) (more : list cstring) :
  join_onto acc (sg :: more) = join_onto (push_segment acc sg) more.
Proof. reflexivity. Qed.

Lemma accumulate_fits (segs : list cstring) (acc : cstring) :
  length (join_onto acc (kept segs)) + 1 < TMP_SIZE ->
  accumulate segs acc = join_onto acc (kept segs).
Proof.
  revert acc; induction segs as [|sg more IH]; intros acc Hfit;
    cbn [accumulate].
  - reflexivity.
  - rewrite kept_cons in *.
    assert ((length acc + 1 <? TMP_SIZE) = true) as Ec.
    { apply Nat.ltb_lt.
      destruct (negb (length sg =? 0) && negb (cstring_eqb sg dotdot)).
      - rewrite join_onto_cons in Hfit.
        pose proof (join_onto_length (kept more) (push_segment acc sg)).
        pose proof (push_segment_length acc sg). lia.
      - pose proof (join_onto_length (kept more) acc). lia. }
    rewrite Ec. cbn [negb].
    destruct (length sg =? 0) eqn:E0; cbn [negb andb] in *; [auto|].
    destruct (cstring_eqb sg dotdot) eqn:Edd; cbn [negb andb] in *; [auto|].
    rewrite join_onto_cons in *.
    pose proof (join_onto_length (kept more) (push_segment acc sg)).
    pose proof (push_segment_length acc sg).
    destruct (TMP_SIZE <=? length acc + length sg + 1) eqn:Eo;
      [apply Nat.leb_le in Eo; lia|].
    apply IH. exact Hfit.
Qed.

(** In general the accumulator is the join of an initial run of the
    kept segments: the loop stops at the first segment that does not
    fit. *)
Lemma accumulate_kept_prefix (segs : list cstring) (acc : cstring) :
  exists n : nat, accumulate segs acc = join_onto acc (firstn n (kept segs)).
Proof.
  revert acc; induction segs as [|sg more IH]; intros acc; cbn [accumulate].
  - exists 0. reflexivity.
  - rewrite kept_cons.
    destruct (negb (length acc + 1 <? TMP_SIZE)); [exists 0; reflexivity|].
    destruct (length sg =? 0); cbn [negb andb]; [apply IH|].
    destruct (cstring_eqb sg dotdot); cbn [negb andb]; [apply IH|].
    destruct (TMP_SIZE <=? length acc + length sg + 1);
      [exists 0; reflexivity|].
    destruct (IH (push_segment acc sg)) as [n Hn].
    exists (S n). rewrite Hn. reflexivity.
Qed.

Lemma join_onto_nil_iff (segs : list cstring) (acc : cstring) :
  Forall (fun sg => sg <> []) segs ->
  join_onto acc segs = [] <-> acc = [] /\ segs = [].
Proof.
  intros Hne. destruct segs as [|sg more]; simpl.
  - split; [auto | intros [-> _]; reflexivity].
  - split; [|intros [_ H]; discriminate].
    intros H. exfalso. inversion Hne as [|? ? Hsg _]; subst.
    pose proof (join_onto_length more (push_segment acc sg)) as H1.
    pose proof (push_segment_length acc sg) as H2.
    unfold join_onto in *. rewrite H in H1. simpl in H1.
    destruct sg; [congruence|]. simpl in H2. lia.
Qed.

Lemma kept_nonempty (segs : list cstring) :
  Forall (fun sg => sg <> []) (kept segs).
Proof.
  unfold kept. apply Forall_forall. intros sg Hin.
  apply filter_In in Hin. destruct Hin as [_ H].
  apply andb_true_iff in H. destruct H as [H _].
  intros ->. discriminate.
Qed.

(** Segments that are dropped can be left out beforehand. *)
Lemma accumulate_kept (segs : list cstring) (acc : cstring) :
  accumulate segs acc = accumulate (kept segs) acc.
Proof.
  revert acc; induction segs as [|sg more IH]; intros acc; [reflexivity|].
  rewrite kept_cons. cbn [accumulate].
  destruct (negb (length acc + 1 <? TMP_SIZE)) eqn:Ec.
  - destruct (negb (length sg =? 0) && negb (cstring_eqb sg dotdot)).
    + cbn [accumulate]. rewrite Ec. reflexivity.
    + destruct (kept more); [reflexivity|]. cbn [accumulate].
      rewrite Ec. reflexivity.
  - destruct (length sg =? 0) eqn:E0; cbn [negb andb]; [apply IH|].
    destruct (cstring_eqb sg dotdot) eqn:Ed; cbn [negb andb]; [apply IH|].
    cbn [accumulate]. rewrite Ec, E0, Ed.
    destruct (TMP_SIZE <=? length acc + length sg + 1); [reflexivity|].
    apply IH.
Qed.

Lemma kept_tests (segs : list cstring) :
  Forall (fun sg => (length sg =? 0) = false /\ cstring_eqb sg dotdot = false)
    (kept segs).
Proof.
  unfold kept. apply Forall_forall. intros sg Hin.
  apply filter_In in Hin. destruct Hin as [_ H].
  apply andb_true_iff in H. destruct H as [H0 Hd].
  split; apply negb_true_iff; assumption.
Qed.

(** The accumulator, exactly: the loop appends the kept segments one
    after the other and stops at the first one whose length, added to
    the length of the accumulator and one, reaches [TMP_SIZE]. *)
Lemma accumulate_exact (segs : list cstring) :
  Forall (fun sg => (length sg =? 0) = false /\ cstring_eqb sg dotdot = false)
    segs ->
  forall acc : cstring,
  exists n : nat,
    n <= length segs /\
    accumulate segs acc = join_onto acc (firstn n segs) /\
    (forall i : nat,
        i < n ->
        length (join_onto acc (firstn i segs)) + length (nth i segs []) + 1
          < TMP_SIZE) /\
    (n < length segs ->
     TMP_SIZE <=
       length (join_onto acc (firstn n segs)) + length (nth n segs []) + 1).
Proof.
  induction 1 as [|sg more [E0 Ed] _ IH]; intros acc.
  - exists 0. cbn [length firstn join_onto fold_left accumulate].
    repeat split; intros; lia.
  - cbn [accumulate]. rewrite E0, Ed.
    destruct (length acc + 1 <? TMP_SIZE) eqn:Ec; cbn [negb].
    + destruct (TMP_SIZE <=? length acc + length sg + 1) eqn:Eo.
      * apply Nat.leb_le in Eo. exists 0.
        cbn [length firstn join_onto fold_left nth].
        repeat split; intros; [lia | lia | exact Eo].
      * apply Nat.leb_gt in Eo.
        destruct (IH (push_segment acc sg)) as (n & Hn & Hacc & Hfit & Hstop).
        exists (S n). cbn [length firstn]. rewrite join_onto_cons.
        repeat split.
        -- lia.
        -- exact Hacc.
        -- intros [|i] Hi; cbn [firstn nth].
           ++ exact Eo.
           ++ rewrite join_onto_cons. apply Hfit. lia.
        -- intros Hlt. cbn [nth]. apply Hstop. lia.
    + apply Nat.ltb_ge in Ec. exists 0.
      cbn [length firstn join_onto fold_left nth].
      repeat split; intros; lia.
Qed.

(** The same for the loop of [sanitize_path] on a request path. *)
Lemma sanitize_loop_exact (req : cstring) :
  exists n : nat,
    n <= length (kept_segments req) /\
    sanitize_loop (skip_leading_slash req) [] =
      join (firstn n (kept_segments req)) /\
    (forall i : nat,
        i < n ->
        length (join (firstn i (kept_segments req))) +
        length (nth i (kept_segments req) []) + 1 < TMP_SIZE) /\
    (n < length (kept_segments req) ->
     TMP_SIZE <=
       length (join (firstn n (kept_segments req))) +
       length (nth n (kept_segments req) []) + 1).
Proof.
  rewrite sanitize_loop_accumulate, accumulate_kept.
  exact (accumulate_exact _ (kept_tests _) []).
Qed.

(** The accumulator is empty after the loop exactly when no segment is
    kept or the first kept segment alone does not fit. *)
Lemma sanitize_loop_empty_iff (req : cstring) :
  sanitize_loop (skip_leading_slash req) [] = [] <->
  kept_segments req = [] \/
  TMP_SIZE <= length (hd [] (kept_segments req)) + 1.
Proof.
  destruct (sanitize_loop_exact req) as (n & Hn & Hacc & Hfit & Hstop).
  pose proof (kept_nonempty (split_slash (skip_leading_slash req))) as Hne.
  fold (kept_segments req) in Hne.
  rewrite Hacc. destruct (kept_segments req) as [|sg more].
  - rewrite firstn_nil. split; [intros _; left | intros _]; reflexivity.
  - destruct n as [|n].
    + cbn [firstn join join_onto fold_left length nth hd] in *.
      split; [intros _; right; apply Hstop; lia | intros _; reflexivity].
    + specialize (Hfit 0 ltac:(lia)).
      cbn [firstn join join_onto fold_left length nth hd] in *.
      split.
      * intros H. exfalso.
        apply (join_onto_nil_iff (firstn n more) (push_segment [] sg)) in H.
        -- destruct H as [H _]. inversion Hne as [|? ? Hsg _]; subst.
           unfold push_segment in H. cbn [length Nat.eqb app] in H.
           contradiction.
        -- inversion Hne as [|? ? _ Hmore]; subst.
           apply Forall_forall. intros x Hx.
           rewrite Forall_forall in Hmore. apply Hmore.
           rewrite <- (firstn_skipn n more). apply in_or_app. left. exact Hx.
      * intros [H|H]; [discriminate | lia].
Qed.

Lemma root_prefix (tail : cstring) :
  SPIFFS_BASE_PATH ++ str "/" ++ tail = str "/spiffs/" ++ tail.
Proof. reflexivity. Qed.

Lemma snprintf_root (buflen : nat) (tail : cstring) :
  9 <= buflen ->
  snprintf buflen (SPIFFS_BASE_PATH ++ str "/" ++ tail) =
    str "/spiffs/" ++ firstn (buflen - 9) tail.
Proof.
  intros H. unfold snprintf. rewrite root_prefix.
  replace (buflen - 1) with (length (str "/spiffs/") + (buflen - 9))
    by (simpl; lia).
  apply firstn_app_2.
Qed.

(** For every request path the output begins with ["/spiffs/"]. *)
Lemma sanitize_path_rooted (req_path : option cstring) (buflen : nat) :
  9 <= buflen ->
  exists tail, sanitize_path req_path buflen = str "/spiffs/" ++ tail.
Proof.
  intros H. unfold sanitize_path.
  destruct req_path as [req|]; [destruct (strcmp_eq req (str "/"))|];
    rewrite snprintf_root by exact H; eexists; reflexivity.
Qed.

(** The sanitized path in terms of the segments of the request path,
    when neither the accumulator nor the output buffer overflows. *)
Lemma sanitize_path_segments (req : cstring) (buflen : nat) :
  req <> str "/" ->
  let segs := kept (split_slash (skip_leading_slash req)) in
  length (join segs) + 1 < TMP_SIZE ->
  length (index_or (join segs)) + 9 <= buflen ->
  sanitize_path (Some req) buflen = str "/spiffs/" ++ index_or (join segs).
Proof.
  intros Hreq segs Htmp Hbuf. subst segs. unfold join, sanitize_path in *.
  destruct (strcmp_eq req (str "/")) eqn:E;
    [apply strcmp_eq_eq in E; contradiction|].
  rewrite sanitize_loop_accumulate, accumulate_fits by exact Htmp.
  rewrite snprintf_root by lia.
  rewrite firstn_all2 by lia. reflexivity.
Qed.

(** The same for every request path, ["/"] included. *)
Lemma sanitize_path_fits (req : cstring) (buflen : nat) :
  length (join (kept_segments req)) + 1 < TMP_SIZE ->
  length (index_or (join (kept_segments req))) + 9 <= buflen ->
  sanitize_path (Some req) buflen =
    str "/spiffs/" ++ index_or (join (kept_segments req)).
Proof.
  intros Htmp Hbuf. destruct (strcmp_eq req (str "/")) eqn:E.
  - apply strcmp_eq_eq in E. subst req.
    change (kept_segments (str "/")) with (@nil cstring) in *.
    change (index_or (join [])) with (str "index.html") in *.
    unfold sanitize_path.
    change (strcmp_eq (str "/") (str "/")) with true. cbv iota.
    rewrite snprintf_root by lia. rewrite firstn_all2 by lia. reflexivity.
  - apply sanitize_path_segments; try assumption.
    intros ->. vm_compute in E. discriminate E.
Qed.


Lemma rooted_no_dotdot (tail : cstring) :
  clean tail -> tail <> [] -> ~ has_dotdot_segment (str "/spiffs/" ++ tail).
Proof.
  intros Hclean Hne. unfold has_dotdot_segment.
  change (str "/spiffs/" ++ tail) with (str "/spiffs" ++ "/"%char :: tail).
  rewrite split_slash_app. intros Hin. apply in_app_or in Hin.
  destruct Hin as [Hin|Hin].
  - simpl in Hin. unfold dotdot in Hin.
    destruct Hin as [Hin|[Hin|[]]]; discriminate Hin.
  - exact (clean_no_dotdot tail Hclean Hin).
Qed.

(** As long as the output buffer holds the whole path, the sanitized
    path has no [".."] segment. *)
Lemma sanitize_path_no_dotdot_unless_cut (req : cstring) (buflen : nat) :
  length (index_or (sanitize_loop (skip_leading_slash req) [])) + 9 <= buflen ->
  19 <= buflen ->
  ~ has_dotdot_segment (sanitize_path (Some req) buflen).
Proof.
  intros Hfit Hbuf.
  assert (clean (str "index.html")) as Hidx.
  { right. repeat constructor; discriminate. }
  unfold sanitize_path. destruct (strcmp_eq req (str "/")).
  - rewrite snprintf_root by lia. rewrite firstn_all2 by (simpl; lia).
    apply rooted_no_dotdot; [exact Hidx | discriminate].
  - rewrite snprintf_root by lia. rewrite firstn_all2 by lia.
    pose proof (sanitize_loop_clean (skip_leading_slash req)) as Hclean.
    destruct (sanitize_loop (skip_leading_slash req) []) as [|c tmp].
    + apply rooted_no_dotdot; [exact Hidx | discriminate].
    + apply rooted_no_dotdot; [exact Hclean | discriminate].
Qed.

Lemma accumulate_all_dropped (segs : list cstring) (acc : cstring) :
  Forall (fun sg => sg = [] \/ sg = dotdot) segs -> accumulate segs acc = acc.
Proof.
  induction 1 as [|sg more Hsg _ IH]; cbn [accumulate]; [reflexivity|].
  destruct (negb (length acc + 1 <? TMP_SIZE)); [reflexivity|].
  destruct Hsg as [-> | ->]; [exact IH|].
  replace (cstring_eqb dotdot dotdot) with true
    by (symmetry; apply cstring_eqb_eq; reflexivity).
  destruct (length dotdot =? 0); exact IH.
Qed.

(** ** sanitize_path: the claims *)

(** C1. The output of [sanitize_path] is claimed to begin with
    ["/spiffs/"] and to contain no [".."] segment for every request path.
    The first half holds ([sanitize_path_rooted]) and the accumulator
    never holds a [".."] segment ([sanitize_loop_clean]), but the final
    [snprintf] into the 256-byte output buffer cuts the path after 255
    characters: for [long_request_path], which a request line
    ["GET <path> HTTP/1.1"] delivers unchanged, the segment ["..x"] is cut
    to [".."] and the sanitized path ends in ["/.."]. *)
Theorem sanitize_path_truncation_leaves_dotdot :
  parse_request_path (str "GET " ++ long_request_path ++ str " HTTP/1.1")
    PATH_BUF_SIZE = long_request_path /\
  sanitize_loop (skip_leading_slash long_request_path) [] =
    repeat "a"%char 244 ++ str "/..x" /\
  sanitize_path (Some long_request_path) PATH_BUF_SIZE =
    str "/spiffs/" ++ repeat "a"%char 244 ++ str "/.." /\
  has_dotdot_segment (sanitize_path (Some long_request_path) PATH_BUF_SIZE).
Proof.
  assert (sanitize_path (Some long_request_path) PATH_BUF_SIZE =
          str "/spiffs/" ++ repeat "a"%char 244 ++ str "/..") as Hout
    by (vm_compute; reflexivity).
  repeat split; try (vm_compute; reflexivity); try exact Hout.
  unfold has_dotdot_segment. rewrite Hout.
  replace (split_slash (str "/spiffs/" ++ repeat "a"%char 244 ++ str "/.."))
    with [[]; str "spiffs"; repeat "a"%char 244; dotdot]
    by (vm_compute; reflexivity).
  simpl. tauto.
Qed.

(** C2 (as stated, refuted). [sanitize_path] does not map
    ["/../../../x"] and ["/../../etc/passwd"] to the index document. *)
Lemma sanitize_path_dotdot_x_not_index :
  ~ (sanitize_path (Some (str "/../../../x")) PATH_BUF_SIZE =
       str "/spiffs/index.html" /\
     sanitize_path (Some (str "/../../etc/passwd")) PATH_BUF_SIZE =
       str "/spiffs/index.html").
Proof.
  intros [H _]. vm_compute in H. discriminate H.
Qed.

(** C2 (amended). A [".."] segment is dropped by itself and the loop
    goes on with the segments after it: ["/../../../x"] is sanitized to
    ["/spiffs/x"] and ["/../../etc/passwd"] to ["/spiffs/etc/passwd"].
    For every request path, as long as the join of its kept segments
    (those that are neither empty nor [".."]) has fewer than 255
    characters and the result fits the output buffer, the result is
    ["/spiffs/"] followed by that join, and ["/spiffs/index.html"] when
    no segment is kept, as for ["/../../.."]. The accumulator is empty,
    so that the index default is taken, exactly when no segment is kept
    or the first kept segment has 255 characters or more: a path of 255
    ['a'] gives the index document too. A result that does not fit the
    output buffer is cut: the path ["/../"], 240 ['a'], ["/etc/passwd"]
    gives ["/spiffs/"], 240 ['a'], ["/etc/pa"]. *)
Theorem sanitize_path_keeps_segments_after_dotdot :
  sanitize_path (Some (str "/../../../x")) PATH_BUF_SIZE = str "/spiffs/x" /\
  sanitize_path (Some (str "/../../etc/passwd")) PATH_BUF_SIZE =
    str "/spiffs/etc/passwd" /\
  sanitize_path (Some (str "/../../..")) PATH_BUF_SIZE =
    str "/spiffs/index.html" /\
  (forall (req : cstring) (buflen : nat),
      length (join (kept_segments req)) + 1 < TMP_SIZE ->
      length (index_or (join (kept_segments req))) + 9 <= buflen ->
      sanitize_path (Some req) buflen =
        str "/spiffs/" ++ index_or (join (kept_segments req))) /\
  (forall req : cstring,
      sanitize_loop (skip_leading_slash req) [] = [] <->
      kept_segments req = [] \/
      TMP_SIZE <= length (hd [] (kept_segments req)) + 1) /\
  kept_segments (repeat "a"%char 255) = [repeat "a"%char 255] /\
  sanitize_path (Some (repeat "a"%char 255)) PATH_BUF_SIZE =
    str "/spiffs/index.html" /\
  sanitize_path
    (Some (str "/../" ++ repeat "a"%char 240 ++ str "/etc/passwd"))
    PATH_BUF_SIZE =
    str "/spiffs/" ++ repeat "a"%char 240 ++ str "/etc/pa".
Proof.
  split; [vm_compute; reflexivity|].
  split; [vm_compute; reflexivity|].
  split; [vm_compute; reflexivity|].
  split; [exact sanitize_path_fits|].
  split; [exact sanitize_loop_empty_iff|].
  repeat split; vm_compute; reflexivity.
Qed.

Lemma sanitize_path_keeps_segments_after_dotdot_witness :
  sanitize_path (Some (str "/../img/../../logo.png")) 256 =
    str "/spiffs/" ++ index_or (join [str "img"; str "logo.png"]).
Proof.
  apply (proj1 (proj2 (proj2 (proj2
           sanitize_path_keeps_segments_after_dotdot)))
           (str "/../img/../../logo.png") 256).
  - vm_compute. lia.
  - vm_compute. lia.
Defined.

(** C7. For a null request path and for ["/"] the result is
    ["/spiffs/index.html"], and so it is whenever the accumulator is empty
    after the segment loop, in particular when every segment of the
    request path is empty or [".."]. (The output buffer must hold the 18
    characters and the terminator.) *)
Theorem sanitize_path_index_default (buflen : nat) (Hbuf : 19 <= buflen) :
  sanitize_path None buflen = str "/spiffs/index.html" /\
  sanitize_path (Some (str "/")) buflen = str "/spiffs/index.html" /\
  (forall req : cstring,
      sanitize_loop (skip_leading_slash req) [] = [] ->
      sanitize_path (Some req) buflen = str "/spiffs/index.html") /\
  (forall req : cstring,
      Forall (fun sg => sg = [] \/ sg = dotdot)
        (split_slash (skip_leading_slash req)) ->
      sanitize_path (Some req) buflen = str "/spiffs/index.html").
Proof.
  assert (snprintf buflen (SPIFFS_BASE_PATH ++ str "/" ++ str "index.html") =
          str "/spiffs/index.html") as Hidx.
  { rewrite snprintf_root by lia. rewrite firstn_all2 by (simpl; lia).
    reflexivity. }
  assert (forall req, sanitize_loop (skip_leading_slash req) [] = [] ->
            sanitize_path (Some req) buflen = str "/spiffs/index.html") as Hempty.
  { intros req Hloop. unfold sanitize_path.
    destruct (strcmp_eq req (str "/")); [exact Hidx|].
    rewrite Hloop. exact Hidx. }
  repeat split.
  - exact Hidx.
  - exact Hidx.
  - exact Hempty.
  - intros req Hall. apply Hempty.
    rewrite sanitize_loop_accumulate. apply accumulate_all_dropped, Hall.
Qed.

Lemma sanitize_path_index_default_witness :
  19 <= 256 /\
  sanitize_path (Some (str "//..//../")) 256 = str "/spiffs/index.html".
Proof.
  split; [lia|].
  destruct (sanitize_path_index_default 256) as (_ & _ & _ & H);
    [lia|].
  apply H. vm_compute.
  repeat (apply Forall_cons; [first [left; reflexivity | right; reflexivity]|]).
  apply Forall_nil.
Defined.




(** ** get_mime_type *)

Lemma code_zero (c : ascii) : code c = 0%Z -> c = NUL.
Proof.
  unfold code, NUL. intros H.
  rewrite <- (ascii_nat_embedding c).
  replace (nat_of_ascii c) with 0 by lia. reflexivity.
Qed.

Lemma code_inj (c d : ascii) : code c = code d -> c = d.
Proof.
  unfold code. intros H.
  rewrite <- (ascii_nat_embedding c), <- (ascii_nat_embedding d).
  f_equal. lia.
Qed.

Lemma tolower_not_nul (c : ascii) : c <> NUL -> tolower c <> NUL.
Proof.
  unfold tolower. intros Hc.
  destruct ((65 <=? nat_of_ascii c) && (nat_of_ascii c <=? 90)) eqn:E;
    [|exact Hc].
  apply andb_true_iff in E. destruct E as [E1 E2].
  apply Nat.leb_le in E1, E2. intros H.
  apply (f_equal nat_of_ascii) in H.
  rewrite nat_ascii_embedding in H by lia.
  change (nat_of_ascii NUL) with 0 in H. lia.
Qed.

Lemma cstring_eqb_cons (x y : ascii) (a b : cstring) :
  cstring_eqb (x :: a) (y :: b) = Ascii.eqb x y && cstring_eqb a b.
Proof.
  destruct (Ascii.eqb x y) eqn:Exy; simpl.
  - apply Ascii.eqb_eq in Exy. subst y.
    destruct (cstring_eqb a b) eqn:E.
    + apply cstring_eqb_eq in E. subst. apply cstring_eqb_eq. reflexivity.
    + destruct (cstring_eqb (x :: a) (x :: b)) eqn:E'; [|reflexivity].
      apply cstring_eqb_eq in E'. injection E' as ->.
      rewrite <- E. symmetry. apply cstring_eqb_eq. reflexivity.
  - apply Ascii.eqb_neq in Exy.
    destruct (cstring_eqb (x :: a) (y :: b)) eqn:E'; [|reflexivity].
    apply cstring_eqb_eq in E'. congruence.
Qed.

(** [strcasecmp] returns 0 exactly on strings equal up to case. *)
Lemma strcasecmp_zero (a b : cstring) :
  no_nul a -> no_nul b ->
  (strcasecmp a b =? 0)%Z = cstring_eqb (lowercase a) (lowercase b).
Proof.
  revert b; induction a as [|x a IH]; intros [|y b] Ha Hb;
    cbn [strcasecmp lowercase map].
  - reflexivity.
  - inversion Hb as [|? ? Hy _]; subst.
    transitivity false; [|reflexivity].
    apply Z.eqb_neq. intros H.
    apply (tolower_not_nul _ Hy), code_zero. lia.
  - inversion Ha as [|? ? Hx _]; subst.
    transitivity false; [|reflexivity].
    apply Z.eqb_neq. intros H.
    apply (tolower_not_nul _ Hx), code_zero. exact H.
  - inversion Ha as [|? ? _ Ha']; inversion Hb as [|? ? _ Hb']; subst.
    rewrite cstring_eqb_cons.
    destruct (Ascii.eqb (tolower x) (tolower y)) eqn:E; cbn [andb].
    + apply IH; assumption.
    + apply Ascii.eqb_neq in E. apply Z.eqb_neq. intros H. apply E.
      apply code_inj. lia.
Qed.

Lemma strrchr_extension_of (path : cstring) :
  extension_of path =
    option_map (fun k => skipn (S k) path) (strrchr path ".").
Proof.
  induction path as [|c rest IH]; simpl; [reflexivity|].
  rewrite IH. destruct (strrchr rest "."); simpl; [reflexivity|].
  destruct (Ascii.eqb c "."); reflexivity.
Qed.

Lemma extension_of_no_dot (path : cstring) :
  ~ In "."%char path -> extension_of path = None.
Proof.
  induction path as [|c rest IH]; simpl; intros H; [reflexivity|].
  rewrite IH by tauto.
  destruct (Ascii.eqb c ".") eqn:E; [|reflexivity].
  apply Ascii.eqb_eq in E. tauto.
Qed.

Lemma extension_of_last_dot (pre ext : cstring) :
  ~ In "."%char ext -> extension_of (pre ++ "."%char :: ext) = Some ext.
Proof.
  intros H. induction pre as [|c pre IH]; simpl.
  - rewrite extension_of_no_dot by exact H. reflexivity.
  - rewrite IH. reflexivity.
Qed.

Lemma no_nul_skipn (n : nat) (s : cstring) : no_nul s -> no_nul (skipn n s).
Proof.
  unfold no_nul. revert s; induction n as [|n IH]; intros s H; simpl.
  - exact H.
  - destruct s; [constructor|]. inversion H; subst. auto.
Qed.

(** C6. [get_mime_type] is a function of the path alone. Without a
    ['.'] it returns ["application/octet-stream"]; otherwise it agrees
    with the table lookup of the lower-cased extension after the last
    ['.'] ([resolve_spec]), with the same default when no entry matches.
    ["style.CSS"] resolves to ["text/css"] and ["noext"] to the default. *)
Theorem get_mime_type_resolves :
  (forall path : cstring,
      ~ In "."%char path -> get_mime_type path = MIME_OCTET) /\
  (forall path : cstring,
      no_nul path -> get_mime_type path = resolve_spec path) /\
  (forall pre ext : cstring,
      ~ In "."%char ext ->
      resolve_spec (pre ++ "."%char :: ext) =
        match table_lookup (lowercase ext) mime_table with
        | Some mime => mime
        | None => MIME_OCTET
        end) /\
  map fst mime_table =
    map str ["html"; "htm"; "css"; "js"; "json"; "png"; "jpg"; "jpeg";
             "gif"; "svg"; "ico"; "txt"]%string /\
  get_mime_type (str "style.CSS") = str "text/css" /\
  get_mime_type (str "noext") = str "application/octet-stream".
Proof.
  split; [|split; [|split; [|repeat split; reflexivity]]].
  - intros path Hdot. unfold get_mime_type.
    pose proof (strrchr_extension_of path) as H.
    rewrite extension_of_no_dot in H by exact Hdot.
    destruct (strrchr path "."); [discriminate | reflexivity].
  - intros path Hnul. unfold get_mime_type, resolve_spec.
    rewrite strrchr_extension_of.
    destruct (strrchr path ".") as [k|]; cbn [option_map]; [|reflexivity].
    assert (forall key : string,
               no_nul (str key) -> lowercase (str key) = str key ->
               (strcasecmp (skipn (S k) path) (str key) =? 0)%Z =
                 cstring_eqb (lowercase (skipn (S k) path)) (str key)) as Hcmp.
    { intros key Hk Hlow. rewrite strcasecmp_zero, Hlow;
        [reflexivity | apply no_nul_skipn, Hnul | exact Hk]. }
    assert (forall key : string, no_nul (str key) <->
              forallb (fun c => negb (Ascii.eqb c NUL)) (str key) = true)
      as Hdec.
    { intros key. unfold no_nul. rewrite Forall_forall, forallb_forall.
      split; intros H c Hin; specialize (H c Hin).
      - apply negb_true_iff, Ascii.eqb_neq, H.
      - apply Ascii.eqb_neq, negb_true_iff, H. }
    rewrite !Hcmp by (try (apply Hdec); reflexivity).
    unfold mime_table. cbn [table_lookup].
    repeat match goal with
           | |- context [cstring_eqb ?a ?b] => destruct (cstring_eqb a b)
           end; reflexivity.
  - intros pre ext Hdot. unfold resolve_spec.
    rewrite extension_of_last_dot by exact Hdot. reflexivity.
Qed.

Lemma get_mime_type_resolves_witness :
  no_nul (str "/spiffs/v1.2/Logo.PnG") /\
  get_mime_type (str "/spiffs/v1.2/Logo.PnG") =
    resolve_spec (str "/spiffs/v1.2/Logo.PnG").
Proof.
  assert (no_nul (str "/spiffs/v1.2/Logo.PnG")) as H
    by (repeat constructor; discriminate).
  split; [exact H|].
  apply (proj1 (proj2 get_mime_type_resolves)). exact H.
Defined.

(** ** parse_request_path *)

Lemma strchr_app_found (a b : cstring) (c : ascii) (k : nat) :
  strchr a c = Some k -> strchr (a ++ b) c = Some k.
Proof.
  revert k; induction a as [|x a IH]; simpl; intros k H; [discriminate|].
  destruct (Ascii.eqb x c); [exact H|].
  destruct (strchr a c) as [j|]; [|discriminate].
  rewrite (IH j eq_refl). exact H.
Qed.

Lemma strchr_middle (m rest : cstring) (c : ascii) :
  ~ In c m -> strchr (m ++ c :: rest) c = Some (length m).
Proof.
  intros H. rewrite strchr_none_app by (apply strchr_none_iff; exact H).
  simpl. rewrite Ascii.eqb_refl. simpl. f_equal. lia.
Qed.

Lemma skipn_middle (m rest : cstring) (c : ascii) :
  skipn (S (length m)) (m ++ c :: rest) = rest.
Proof.
  induction m as [|x m IH]; [reflexivity | exact IH].
Qed.

Lemma parse_request_path_token (m tok rest : cstring) (pathbuflen : nat) :
  1 <= pathbuflen ->
  ~ In " "%char m -> ~ In " "%char tok ->
  parse_request_path (m ++ " "%char :: tok ++ " "%char :: rest) pathbuflen =
    firstn (pathbuflen - 1) tok.
Proof.
  intros Hlen Hm Htok. unfold parse_request_path.
  rewrite strchr_middle by exact Hm. rewrite skipn_middle.
  rewrite strchr_middle by exact Htok.
  destruct (pathbuflen <=? length tok) eqn:E.
  - apply Nat.leb_le in E. rewrite firstn_app.
    replace (pathbuflen - 1 - length tok) with 0 by lia.
    rewrite firstn_O, app_nil_r. reflexivity.
  - apply Nat.leb_gt in E. rewrite firstn_app, Nat.sub_diag, firstn_O.
    rewrite app_nil_r, !firstn_all2 by lia. reflexivity.
Qed.

Lemma parse_request_path_one_space (m rest : cstring) (pathbuflen : nat) :
  ~ In " "%char m -> ~ In " "%char rest ->
  parse_request_path (m ++ " "%char :: rest) pathbuflen =
    strncpy (str "/") pathbuflen.
Proof.
  intros Hm Hrest. unfold parse_request_path.
  rewrite strchr_middle by exact Hm. rewrite skipn_middle.
  apply strchr_none_iff in Hrest. rewrite Hrest. reflexivity.
Qed.

Lemma first_line_prefix (req : cstring) :
  exists tail, req = first_line req ++ tail.
Proof.
  induction req as [|c rest [tail IH]]; simpl.
  - exists []. reflexivity.
  - destruct (Ascii.eqb c CR || Ascii.eqb c LF).
    + exists (c :: rest). reflexivity.
    + exists tail. simpl. f_equal. exact IH.
Qed.

Lemma parse_first_line_spec_token (req m tok rest : cstring) (pathbuflen : nat) :
  first_line req = m ++ " "%char :: tok ++ " "%char :: rest ->
  ~ In " "%char m -> ~ In " "%char tok ->
  parse_first_line_spec req pathbuflen = firstn (pathbuflen - 1) tok.
Proof.
  intros Hline Hm Htok. unfold parse_first_line_spec. rewrite Hline.
  rewrite strchr_middle by exact Hm. rewrite skipn_middle.
  rewrite strchr_middle by exact Htok.
  rewrite firstn_app.
  replace (Nat.min (length tok) (pathbuflen - 1) - length tok) with 0 by lia.
  rewrite firstn_O, app_nil_r.
  destruct (Nat.le_ge_cases (length tok) (pathbuflen - 1)).
  - rewrite Nat.min_l, !firstn_all2 by lia. reflexivity.
  - rewrite Nat.min_r by lia. reflexivity.
Qed.

(** C5 (as stated, refuted). The parser does not confine itself to the
    first line: for a request whose first line is ["GET /"], the first
    line has no second space, yet the result is not ["/"] but the text up
    to the first space of the next line. *)
Lemma parse_request_path_not_first_line :
  strchr (first_line request_without_version) " " = Some 3 /\
  strchr (skipn 4 (first_line request_without_version)) " " = None /\
  parse_first_line_spec request_without_version PATH_BUF_SIZE = str "/" /\
  parse_request_path request_without_version PATH_BUF_SIZE =
    str "/" ++ [CR; LF] ++ str "Host:" /\
  parse_request_path request_without_version PATH_BUF_SIZE <>
    parse_first_line_spec request_without_version PATH_BUF_SIZE.
Proof.
  repeat split; try (vm_compute; reflexivity).
  vm_compute. discriminate.
Qed.

(** C5 (amended). [parse_request_path] returns the text between the
    first and the second space of the request buffer (read as a C
    string), wherever they are; it agrees with the first-line reading
    whenever the first line has two spaces. Without a first or a second
    space it returns ["/"]. A token that does not fit is cut to
    [pathbuflen - 1] characters. *)
Theorem parse_request_path_between_spaces
    (req : cstring) (pathbuflen : nat) (Hlen : 2 <= pathbuflen) :
  (~ In " "%char req -> parse_request_path req pathbuflen = str "/") /\
  (forall m rest : cstring,
      req = m ++ " "%char :: rest ->
      ~ In " "%char m -> ~ In " "%char rest ->
      parse_request_path req pathbuflen = str "/") /\
  (forall m tok rest : cstring,
      req = m ++ " "%char :: tok ++ " "%char :: rest ->
      ~ In " "%char m -> ~ In " "%char tok ->
      parse_request_path req pathbuflen = firstn (pathbuflen - 1) tok /\
      (length tok < pathbuflen -> parse_request_path req pathbuflen = tok)) /\
  (forall m tok rest : cstring,
      first_line req = m ++ " "%char :: tok ++ " "%char :: rest ->
      ~ In " "%char m -> ~ In " "%char tok ->
      parse_request_path req pathbuflen =
        parse_first_line_spec req pathbuflen).
Proof.
  assert (strncpy (str "/") pathbuflen = str "/") as Hroot.
  { unfold strncpy. apply firstn_all2. simpl. lia. }
  split; [|split; [|split]].
  - intros Hno. unfold parse_request_path.
    apply strchr_none_iff in Hno. rewrite Hno. exact Hroot.
  - intros m rest -> Hm Hrest.
    rewrite parse_request_path_one_space by assumption. exact Hroot.
  - intros m tok rest -> Hm Htok.
    rewrite parse_request_path_token by (assumption || lia).
    split; [reflexivity|]. intros Hfit. apply firstn_all2. lia.
  - intros m tok rest Hline Hm Htok.
    rewrite (parse_first_line_spec_token req m tok rest pathbuflen Hline Hm Htok).
    destruct (first_line_prefix req) as [tail Hreq].
    rewrite Hreq, Hline. rewrite <- !app_assoc. simpl.
    rewrite <- app_assoc. simpl.
    apply parse_request_path_token; (assumption || lia).
Qed.

Lemma parse_request_path_between_spaces_witness :
  2 <= 256 /\
  parse_request_path (str "GET /a/b.html HTTP/1.1") 256 = str "/a/b.html".
Proof.
  split; [lia|].
  destruct (parse_request_path_between_spaces
              (str "GET /a/b.html HTTP/1.1") 256) as (_ & _ & H & _); [lia|].
  destruct (H (str "GET") (str "/a/b.html") (str "HTTP/1.1")) as [_ H'].
  - reflexivity.
  - simpl. intuition discriminate.
  - simpl. intuition discriminate.
  - apply H'. simpl. lia.
Defined.

(** ** The responder: unfolding the loops *)

Lemma FILE_CHUNK_pos : 0 < FILE_CHUNK.
Proof. unfold FILE_CHUNK. lia. Qed.

Section ServerProofs.

Variable fs : cstring -> option (list ascii).
Variable net : nat -> send_outcome.
Variable rx : option (list ascii).

Lemma send_chunk_eq (f : FILE) (buf : list ascii) (sent : nat) (st : conn) :
  send_chunk net f buf sent st =
    if sent <? length buf then
      let (s, st1) := send net (skipn sent buf) st in
      if (s <? 0)%Z then (false, snd (fclose f st1))
      else send_chunk net f buf (sent + Z.to_nat s) st1
    else (true, st).
Proof.
  funelim (send_chunk net f buf sent st);
    match goal with
    | H : (_ <? length _) = _ |- _ => rewrite H
    end;
    unfold send; cbv beta iota zeta;
    try match goal with
        | H : (_ <? 0)%Z = _ |- _ => rewrite H
        end;
    reflexivity.
Qed.

#[local] Opaque FILE_CHUNK.

Lemma send_body_eq (f : FILE) (st : conn) :
  send_body net f st =
    let (buf, f1) := fread FILE_CHUNK f in
    if 0 <? length buf then
      let (sent_all, st1) := send_chunk net f1 buf 0 st in
      if sent_all then send_body net f1 st1 else (false, st1)
    else (true, st).
Proof.
  funelim (send_body net f st);
    unfold fread; cbv beta iota zeta;
    match goal with
    | H : (0 <? _) = _ |- _ => rewrite H
    end;
    try match goal with
        | H : send_chunk _ _ _ _ _ = _ |- _ => rewrite H
        | H : _ = send_chunk _ _ _ _ _ |- _ => rewrite <- H
        end;
    reflexivity.
Qed.

Lemma send_file_eq (fullpath : cstring) (isFallback : bool) (st : conn) :
  send_file fs net fullpath isFallback st =
    match fopen fs fullpath st with
    | (None, st1) =>
        if isFallback then send_404 net st1
        else send_file fs net FALLBACK_PATH true st1
    | (Some f, st1) =>
        (let f := fseek_end f in
         let filesize := ftell f in
         let f := fseek_set f in
         let mime := get_mime_type fullpath in
         let header := snprintf HEADER_SIZE (header_200_text mime filesize) in
         send net header ;;;
         finished <- send_body net f ;;
         if finished then fclose f else ret tt)%io st1
    end.
Proof.
  funelim (send_file fs net fullpath isFallback st);
    match goal with
    | H : fopen _ _ _ = _ |- _ => rewrite H
    end; reflexivity.
Qed.

(** ** The responder: what the loops put in the log *)

Lemma send_log (data : list ascii) (st st1 : conn) (s : Z) :
  send net data st = (s, st1) ->
  log st1 = log st ++ [EvSend data s] /\ sends st1 = S (sends st).
Proof.
  unfold send. intros H. injection H as <- <-. split; reflexivity.
Qed.

Lemma no_send_error_app (a b : list event) :
  no_send_error (a ++ b) = no_send_error a && no_send_error b.
Proof. apply forallb_app. Qed.

(** What one run of the inner loop logs: only [send] calls; when it
    returns [true] none failed and together they carried the unsent part
    of the chunk; when it returns [false] the last one failed and the
    file was closed right after it. *)
Lemma send_chunk_log (f : FILE) (buf : list ascii) :
  forall (n sent : nat) (st : conn),
    length buf - sent = n -> sent <= length buf ->
    exists evs : list event,
      log (snd (send_chunk net f buf sent st)) =
        log st ++ evs ++
        (if fst (send_chunk net f buf sent st) then []
         else [EvFclose (f_path f)]) /\
      Forall (fun e => is_send e = true) evs /\
      (if fst (send_chunk net f buf sent st)
       then no_send_error evs = true /\ wire evs = skipn sent buf
       else exists pre d s,
           evs = pre ++ [EvSend d s] /\ (s < 0)%Z /\
           no_send_error pre = true).
Proof.
  induction n as [n IH] using lt_wf_ind. intros sent st Hn Hle.
  rewrite send_chunk_eq. destruct (sent <? length buf) eqn:E.
  - apply Nat.ltb_lt in E.
    destruct (send net (skipn sent buf) st) as [s st1] eqn:Es.
    destruct (send_log _ _ _ _ Es) as [Hlog _].
    destruct (s <? 0)%Z eqn:Eneg.
    + exists [EvSend (skipn sent buf) s]. cbn [fst snd fclose emit log].
      rewrite Hlog, <- app_assoc. repeat split.
      * repeat constructor.
      * exists [], (skipn sent buf), s. repeat split. apply Z.ltb_lt, Eneg.
    + assert (skipn sent buf <> []) as Hne.
      { intros H. apply (f_equal (@length _)) in H.
        rewrite length_skipn in H. simpl in H. lia. }
      pose proof (send_progress _ _ _ _ _ Es Hne Eneg) as Hs.
      rewrite length_skipn in Hs.
      destruct (IH (length buf - (sent + Z.to_nat s)) ltac:(lia)
                  (sent + Z.to_nat s) st1 eq_refl ltac:(lia))
        as (evs & Hevs & Hsend & Hres).
      exists (EvSend (skipn sent buf) s :: evs). repeat split.
      * rewrite Hevs, Hlog, <- app_assoc. reflexivity.
      * constructor; [reflexivity | exact Hsend].
      * destruct (fst (send_chunk net f buf (sent + Z.to_nat s) st1)).
        -- destruct Hres as [Hok Hwire]. split.
           ++ cbn [no_send_error forallb is_send_error].
              rewrite Eneg. exact Hok.
           ++ cbn [wire flat_map accepted]. fold (wire evs).
              rewrite Hwire, Nat.add_comm, <- skipn_skipn.
              apply firstn_skipn.
        -- destruct Hres as (pre & d & s' & -> & Hneg & Hpre).
           exists (EvSend (skipn sent buf) s :: pre), d, s'. repeat split.
           ++ exact Hneg.
           ++ cbn [no_send_error forallb is_send_error].
              rewrite Eneg. exact Hpre.
  - apply Nat.ltb_ge in E. exists []. cbn [fst snd].
    rewrite app_nil_r. repeat split.
    + constructor.
    + rewrite skipn_all2 by lia. reflexivity.
Qed.

Lemma fread_path (n : nat) (f f1 : FILE) (buf : list ascii) :
  fread n f = (buf, f1) ->
  f_path f1 = f_path f /\ buf = firstn n (skipn (f_pos f) (f_data f)).
Proof.
  unfold fread. intros H.
  assert (buf = firstn n (skipn (f_pos f) (f_data f))) as Hb
    by exact (eq_sym (f_equal fst H)).
  split; [|exact Hb].
  pose proof (f_equal snd H) as Hf. simpl in Hf. rewrite <- Hf. reflexivity.
Qed.

(** The same for the whole body. *)
Lemma send_body_log :
  forall (n : nat) (f : FILE) (st : conn),
    length (f_data f) - f_pos f = n ->
    exists evs : list event,
      log (snd (send_body net f st)) =
        log st ++ evs ++
        (if fst (send_body net f st) then [] else [EvFclose (f_path f)]) /\
      Forall (fun e => is_send e = true) evs /\
      (if fst (send_body net f st)
       then no_send_error evs = true /\
            wire evs = skipn (f_pos f) (f_data f)
       else exists pre d s,
           evs = pre ++ [EvSend d s] /\ (s < 0)%Z /\
           no_send_error pre = true).
Proof.
  induction n as [n IH] using lt_wf_ind. intros f st Hn.
  rewrite send_body_eq. destruct (fread FILE_CHUNK f) as [buf f1] eqn:Er.
  destruct (fread_advances _ _ _ _ Er) as (Hdata & Hpos & Hle).
  destruct (fread_path _ _ _ _ Er) as (Hpath & Hbuf).
  destruct (0 <? length buf) eqn:E.
  - apply Nat.ltb_lt in E.
    destruct (send_chunk_log f1 buf (length buf - 0) 0 st eq_refl ltac:(lia))
      as (evs1 & Hlog1 & Hsend1 & Hres1).
    destruct (send_chunk net f1 buf 0 st) as [sent_all st1] eqn:Ec.
    cbn [fst snd] in *. destruct sent_all.
    + destruct Hres1 as [Hok1 Hwire1]. rewrite app_nil_r in Hlog1.
      destruct (IH (length (f_data f1) - f_pos f1)
                  ltac:(rewrite Hdata, Hpos; lia) f1 st1 eq_refl)
        as (evs2 & Hlog2 & Hsend2 & Hres2).
      exists (evs1 ++ evs2). repeat split.
      * rewrite Hlog2, Hlog1, Hpath, <- !app_assoc. reflexivity.
      * apply Forall_app; split; assumption.
      * destruct (fst (send_body net f1 st1)).
        -- destruct Hres2 as [Hok2 Hwire2]. split.
           ++ rewrite no_send_error_app, Hok1, Hok2. reflexivity.
           ++ unfold wire in *. rewrite flat_map_app, Hwire1, Hwire2.
              rewrite Hdata, Hpos, Hbuf, skipn_O, Nat.add_comm.
              rewrite <- skipn_skipn, length_firstn.
              set (rest := skipn (f_pos f) (f_data f)).
              destruct (Nat.le_ge_cases FILE_CHUNK (length rest)).
              ** rewrite Nat.min_l by lia. apply firstn_skipn.
              ** rewrite Nat.min_r by lia. rewrite skipn_all, app_nil_r.
                 apply firstn_all2. lia.
        -- destruct Hres2 as (pre & d & s & -> & Hneg & Hpre).
           exists (evs1 ++ pre), d, s. repeat split.
           ++ rewrite app_assoc. reflexivity.
           ++ exact Hneg.
           ++ rewrite no_send_error_app, Hok1, Hpre. reflexivity.
    + exists evs1. rewrite Hpath in Hlog1. repeat split; assumption.
  - apply Nat.ltb_ge in E. exists []. cbn [fst snd].
    rewrite app_nil_r. repeat split.
    + constructor.
    + assert (length buf = 0) as Hz by lia.
      rewrite Hbuf, length_firstn, length_skipn in Hz.
      symmetry. apply length_zero_iff_nil. rewrite length_skipn.
      pose proof FILE_CHUNK_pos. lia.
Qed.

(** With a transport that never fails both loops run to their end. *)
Lemma send_chunk_never_fails (f : FILE) (buf : list ascii) :
  never_fails net ->
  forall (n sent : nat) (st : conn),
    length buf - sent = n -> fst (send_chunk net f buf sent st) = true.
Proof.
  intros Hnet. induction n as [n IH] using lt_wf_ind. intros sent st Hn.
  rewrite send_chunk_eq. destruct (sent <? length buf) eqn:E; [|reflexivity].
  apply Nat.ltb_lt in E.
  destruct (send net (skipn sent buf) st) as [s st1] eqn:Es.
  assert (skipn sent buf <> []) as Hne.
  { intros H. apply (f_equal (@length _)) in H.
    rewrite length_skipn in H. simpl in H. lia. }
  assert ((s <? 0)%Z = false) as Eneg.
  { unfold send in Es. injection Es as <- _.
    pose proof (Hnet (sends st)). destruct (net (sends st)); [congruence|].
    apply Z.ltb_ge. lia. }
  rewrite Eneg.
  pose proof (send_progress _ _ _ _ _ Es Hne Eneg) as Hs.
  rewrite length_skipn in Hs.
  apply (IH (length buf - (sent + Z.to_nat s))); [lia | reflexivity].
Qed.

Lemma send_body_never_fails :
  never_fails net ->
  forall (n : nat) (f : FILE) (st : conn),
    length (f_data f) - f_pos f = n -> fst (send_body net f st) = true.
Proof.
  intros Hnet. induction n as [n IH] using lt_wf_ind. intros f st Hn.
  rewrite send_body_eq. destruct (fread FILE_CHUNK f) as [buf f1] eqn:Er.
  destruct (fread_advances _ _ _ _ Er) as (Hdata & Hpos & Hle).
  destruct (0 <? length buf) eqn:E; [|reflexivity].
  apply Nat.ltb_lt in E.
  pose proof (send_chunk_never_fails f1 buf Hnet (length buf - 0) 0 st eq_refl)
    as Hc.
  destruct (send_chunk net f1 buf 0 st) as [sent_all st1].
  cbn [fst] in Hc. subst sent_all.
  apply (IH (length (f_data f1) - f_pos f1)); [|reflexivity].
  rewrite Hdata, Hpos. lia.
Qed.

Lemma error_is_last (pre0 pre post : list event) (x e : event) :
  no_send_error pre0 = true ->
  pre0 ++ [x] = pre ++ e :: post ->
  is_send_error e = true -> post = [].
Proof.
  revert pre; induction pre0 as [|y pre0 IH]; intros pre Hok Heq He.
  - destruct pre as [|p pre]; simpl in Heq.
    + injection Heq as _ <-. reflexivity.
    + injection Heq as _ Heq. destruct pre; discriminate.
  - cbn [no_send_error forallb] in Hok.
    apply andb_true_iff in Hok. destruct Hok as [Hy Hok].
    destruct pre as [|p pre]; simpl in Heq; injection Heq as Hhd Heq.
    + subst y. rewrite He in Hy. discriminate.
    + exact (IH pre Hok Heq He).
Qed.

Lemma header_200_not_404 (fullpath : cstring) (filesize : nat) :
  HEADER_200 fullpath filesize <> HEADER_404.
Proof.
  unfold HEADER_200, HEADER_404, snprintf. intros H.
  apply (f_equal (fun l => nth 9 l NUL)) in H.
  unfold HEADER_SIZE, header_200_text, header_404_text in H.
  cbn in H. discriminate H.
Qed.

(** [send_404] logs two sends: the header and the body. *)
Lemma send_404_log (st : conn) :
  exists s1 s2 : Z,
    log (snd (send_404 net st)) =
      log st ++ [EvSend HEADER_404 s1; EvSend BODY_404 s2].
Proof.
  unfold send_404, bind, ret, send. cbn [snd log sends].
  rewrite <- app_assoc. do 2 eexists. reflexivity.
Qed.

(** The file could be opened: header, body, [fclose]. *)
Lemma send_file_opened (fullpath : cstring) (isFallback : bool) (st : conn)
    (data : list ascii) :
  fs fullpath = Some data ->
  exists (s0 : Z) (body : list event),
    log (snd (send_file fs net fullpath isFallback st)) =
      log st ++
      [EvFopen fullpath true; EvSend (HEADER_200 fullpath (length data)) s0]
      ++ body ++ [EvFclose fullpath] /\
    Forall (fun e => is_send e = true) body /\
    (no_send_error body = true -> wire body = data) /\
    (forall pre e post,
        body = pre ++ e :: post -> is_send_error e = true -> post = []) /\
    s0 = fst (send net (HEADER_200 fullpath (length data))
                (mkConn (sends st) (log st ++ [EvFopen fullpath true]))) /\
    (never_fails net -> no_send_error body = true).
Proof.
  intros Hfs. rewrite send_file_eq. unfold fopen. rewrite Hfs.
  cbv zeta. unfold bind at 1.
  change (ftell (fseek_end (mkFile fullpath data 0))) with (length data).
  change (fseek_set (fseek_end (mkFile fullpath data 0)))
    with (mkFile fullpath data 0).
  fold (HEADER_200 fullpath (length data)).
  destruct (send net (HEADER_200 fullpath (length data))
              (mkConn (sends st) (log st ++ [EvFopen fullpath true])))
    as [s0 st2] eqn:Es.
  destruct (send_log _ _ _ _ Es) as [Hlog2 _]. cbn [log] in Hlog2.
  destruct (send_body_log (length data - 0) (mkFile fullpath data 0) st2
              eq_refl) as (body & Hlog & Hsend & Hres).
  pose proof (fun H => send_body_never_fails H (length data - 0)
                         (mkFile fullpath data 0) st2 eq_refl) as Hnf.
  cbn [f_path f_data f_pos] in *. rewrite skipn_O in Hres.
  exists s0, body. unfold bind.
  destruct (send_body net (mkFile fullpath data 0) st2) as [finished st3].
  cbn [fst snd] in *. destruct finished.
  - destruct Hres as [Hok Hwire]. repeat split; try (intros _; exact Hok).
    + cbn [fclose emit snd log f_path].
      rewrite Hlog, Hlog2, app_nil_r, <- !app_assoc. reflexivity.
    + exact Hsend.
    + intros _. exact Hwire.
    + intros pre e post -> He. exfalso.
      unfold no_send_error in Hok. rewrite forallb_forall in Hok.
      specialize (Hok e ltac:(apply in_or_app; right; left; reflexivity)).
      rewrite He in Hok. discriminate.
  - destruct Hres as (pre0 & d & s & -> & Hneg & Hpre).
    repeat split; try (intros Hnever; specialize (Hnf Hnever); discriminate).
    + cbn [ret snd]. rewrite Hlog, Hlog2, <- !app_assoc. reflexivity.
    + exact Hsend.
    + intros Hok. rewrite no_send_error_app in Hok.
      apply andb_true_iff in Hok. destruct Hok as [_ Hok].
      cbn [no_send_error forallb is_send_error] in Hok.
      apply Z.ltb_lt in Hneg. rewrite Hneg in Hok. discriminate.
    + intros pre e post Heq He. exact (error_is_last pre0 pre post (EvSend d s) e Hpre Heq He).
Qed.

(** The file could not be opened. *)
Lemma send_file_missing (fullpath : cstring) (isFallback : bool) (st : conn) :
  fs fullpath = None ->
  log (snd (fopen fs fullpath st)) = log st ++ [EvFopen fullpath false] /\
  send_file fs net fullpath isFallback st =
    if isFallback then send_404 net (snd (fopen fs fullpath st))
    else send_file fs net FALLBACK_PATH true (snd (fopen fs fullpath st)).
Proof.
  intros Hfs. rewrite send_file_eq. unfold fopen. rewrite Hfs.
  split; reflexivity.
Qed.

(** Every event [send_file] logs is a call on the file or a [send]. *)
Lemma send_file_events (fullpath : cstring) (isFallback : bool) (st : conn) :
  exists evs : list event,
    log (snd (send_file fs net fullpath isFallback st)) = log st ++ evs /\
    Forall (fun e => is_file_or_send e = true) evs.
Proof.
  assert (forall path b st',
             fs path <> None ->
             exists evs : list event,
               log (snd (send_file fs net path b st')) = log st' ++ evs /\
               Forall (fun e => is_file_or_send e = true) evs) as Hopen.
  { intros path b st' Hp. destruct (fs path) as [data|] eqn:Hfs; [|congruence].
    destruct (send_file_opened path b st' data Hfs)
      as (s0 & body & Hlog & Hsend & _).
    eexists. split; [exact Hlog|].
    repeat constructor. apply Forall_app. split; [|repeat constructor].
    eapply Forall_impl; [|exact Hsend].
    intros [] H; try discriminate; reflexivity. }
  assert (forall path st',
             fs path = None ->
             exists evs : list event,
               log (snd (send_file fs net path true st')) = log st' ++ evs /\
               Forall (fun e => is_file_or_send e = true) evs) as Hmiss.
  { intros path st' Hfs.
    destruct (send_file_missing path true st' Hfs) as [Hl ->].
    destruct (send_404_log (snd (fopen fs path st'))) as (s1 & s2 & H404).
    eexists. split.
    - rewrite H404, Hl, <- app_assoc. reflexivity.
    - repeat constructor. }
  destruct (fs fullpath) as [data|] eqn:Hfs.
  - apply Hopen. congruence.
  - destruct isFallback; [apply Hmiss, Hfs|].
    destruct (send_file_missing fullpath false st Hfs) as [Hl ->].
    assert (exists evs : list event,
               log (snd (send_file fs net FALLBACK_PATH true
                           (snd (fopen fs fullpath st)))) =
                 log (snd (fopen fs fullpath st)) ++ evs /\
               Forall (fun e => is_file_or_send e = true) evs)
      as (evs & Hlog & Hall).
    { destruct (fs FALLBACK_PATH) eqn:Hfb;
        [apply Hopen; congruence | apply Hmiss, Hfb]. }
    exists (EvFopen fullpath false :: evs). split.
    + rewrite Hlog, Hl, <- app_assoc. reflexivity.
    + constructor; [reflexivity | exact Hall].
Qed.

End ServerProofs.

(** ** The headers are not cut *)

Lemma decimal_rev_value (fuel n : nat) :
  n < fuel -> value_rev (decimal_rev fuel n) = n.
Proof.
  revert n; induction fuel as [|fuel IH]; intros n Hn; [lia|].
  cbn [decimal_rev].
  assert (nat_of_ascii (ascii_of_nat (48 + n mod 10)) - 48 = n mod 10) as Hd.
  { pose proof (Nat.mod_upper_bound n 10 ltac:(lia)).
    rewrite nat_ascii_embedding by lia. lia. }
  destruct (n <? 10) eqn:E; cbn [value_rev]; rewrite Hd.
  - apply Nat.ltb_lt in E. rewrite Nat.mod_small by lia. lia.
  - apply Nat.ltb_ge in E.
    pose proof (Nat.div_mod_eq n 10).
    pose proof (Nat.Div0.div_lt_upper_bound n 10 n ltac:(lia)).
    rewrite IH by lia. lia.
Qed.

(** [decimal] prints the digits of its argument. *)
Lemma decimal_value (n : nat) : value_rev (rev (decimal n)) = n.
Proof.
  unfold decimal. rewrite rev_involutive. apply decimal_rev_value. lia.
Qed.

Lemma decimal_rev_length (fuel : nat) :
  forall n k : nat,
    (Z.of_nat n < 10 ^ Z.of_nat (S k))%Z ->
    length (decimal_rev fuel n) <= S k.
Proof.
  induction fuel as [|fuel IH]; intros n k H; cbn [decimal_rev length]; [lia|].
  destruct (n <? 10) eqn:E; cbn [length]; [lia|].
  apply Nat.ltb_ge in E. destruct k as [|k].
  - change (10 ^ Z.of_nat 1)%Z with 10%Z in H. lia.
  - apply le_n_S, IH. rewrite Nat2Z.inj_div.
    apply Z.div_lt_upper_bound; [lia|].
    rewrite <- Z.pow_succ_r by lia. rewrite <- Nat2Z.inj_succ. exact H.
Qed.

(** A [long] prints in at most ten digits. *)
Lemma decimal_length (n : nat) :
  (Z.of_nat n <= LONG_MAX)%Z -> length (decimal n) <= 10.
Proof.
  intros H. unfold decimal. rewrite length_rev.
  apply decimal_rev_length.
  change (10 ^ Z.of_nat 10)%Z with 10000000000%Z. unfold LONG_MAX in H. lia.
Qed.

Lemma get_mime_type_length (path : cstring) :
  length (get_mime_type path) <= 25.
Proof.
  unfold get_mime_type. destruct (strrchr path ".") as [k|]; [|simpl; lia].
  repeat match goal with
         | |- context [if ?c then _ else _] => destruct c
         end; simpl; lia.
Qed.

(** The 200 header of a file whose size fits a [long] is not cut by
    [snprintf]: it is the whole text, with the size in decimal. *)
Lemma header_200_whole (fullpath : cstring) (filesize : nat) :
  (Z.of_nat filesize <= LONG_MAX)%Z ->
  HEADER_200 fullpath filesize =
    header_200_text (get_mime_type fullpath) filesize.
Proof.
  intros H. unfold HEADER_200, snprintf. apply firstn_all2.
  pose proof (decimal_length filesize H).
  pose proof (get_mime_type_length fullpath).
  unfold header_200_text, CRLF.
  repeat (rewrite length_app || cbn [length str list_ascii_of_string]).
  unfold HEADER_SIZE. lia.
Qed.

(** ** The responder: the claims *)

(** C3. When the open fails and this is not a fallback attempt,
    [send_file] goes on as [send_file FALLBACK_PATH true], and that
    attempt does not retry: when its open fails too, the 404 header and
    the body ["<html><body><h1>404 Not Found</h1></body></html>"] are
    sent, the header declaring the 48 bytes of the body. The response
    starts with the 404 header in no other case. *)
Theorem send_file_fallback_then_404
    (fs : cstring -> option (list ascii)) (net : nat -> send_outcome) :
  (forall (fullpath : cstring) (st : conn),
      fs fullpath = None ->
      log (snd (fopen fs fullpath st)) = log st ++ [EvFopen fullpath false] /\
      send_file fs net fullpath false st =
        send_file fs net FALLBACK_PATH true (snd (fopen fs fullpath st))) /\
  (forall (fullpath : cstring) (st : conn),
      fs fullpath = None ->
      exists s1 s2 : Z,
        log (snd (send_file fs net fullpath true st)) =
          log st ++
          [EvFopen fullpath false; EvSend HEADER_404 s1; EvSend BODY_404 s2]) /\
  (forall (fullpath : cstring) (st : conn),
      fs fullpath = None -> fs FALLBACK_PATH = None ->
      exists s1 s2 : Z,
        log (snd (send_file fs net fullpath false st)) =
          log st ++
          [EvFopen fullpath false; EvFopen FALLBACK_PATH false;
           EvSend HEADER_404 s1; EvSend BODY_404 s2]) /\
  (HEADER_404 =
     str "HTTP/1.1 404 Not Found" ++ CRLF ++
     str "Content-Type: text/html; charset=utf-8" ++ CRLF ++
     str "Content-Length: 48" ++ CRLF ++
     str "Connection: close" ++ CRLF ++ CRLF /\
   BODY_404 = str "<html><body><h1>404 Not Found</h1></body></html>" /\
   length BODY_404 = 48 /\
   FALLBACK_PATH = str "/spiffs/index.html") /\
  (forall (fullpath : cstring) (isFallback : bool) (st : conn)
          (evs : list event),
      log (snd (send_file fs net fullpath isFallback st)) = log st ++ evs ->
      (first_sent evs = Some HEADER_404 <->
       fs fullpath = None /\ (isFallback = true \/ fs FALLBACK_PATH = None))).
Proof.
  assert (forall fullpath st,
             fs fullpath = None ->
             exists s1 s2 : Z,
               log (snd (send_file fs net fullpath true st)) =
                 log st ++
                 [EvFopen fullpath false; EvSend HEADER_404 s1;
                  EvSend BODY_404 s2]) as H404.
  { intros fullpath st Hfs.
    destruct (send_file_missing fs net fullpath true st Hfs) as [Hl ->].
    destruct (send_404_log net (snd (fopen fs fullpath st)))
      as (s1 & s2 & H).
    exists s1, s2. rewrite H, Hl, <- app_assoc. reflexivity. }
  assert (forall fullpath st,
             fs fullpath = None -> fs FALLBACK_PATH = None ->
             exists s1 s2 : Z,
               log (snd (send_file fs net fullpath false st)) =
                 log st ++
                 [EvFopen fullpath false; EvFopen FALLBACK_PATH false;
                  EvSend HEADER_404 s1; EvSend BODY_404 s2]) as Hboth.
  { intros fullpath st Hfs Hfb.
    destruct (send_file_missing fs net fullpath false st Hfs) as [Hl ->].
    destruct (H404 FALLBACK_PATH (snd (fopen fs fullpath st)) Hfb)
      as (s1 & s2 & H).
    exists s1, s2. rewrite H, Hl, <- app_assoc. reflexivity. }
  split; [|split; [exact H404|split; [exact Hboth|split]]].
  - intros fullpath st Hfs.
    destruct (send_file_missing fs net fullpath false st Hfs) as [Hl Heq].
    split; assumption.
  - repeat split; reflexivity.
  - intros fullpath isFallback st evs Hlog.
    destruct (fs fullpath) as [data|] eqn:Hfs.
    + destruct (send_file_opened fs net fullpath isFallback st data Hfs)
        as (s0 & body & Hl & _).
      rewrite Hl in Hlog. apply app_inv_head in Hlog. subst evs.
      cbn [first_sent app]. split.
      * intros H. exfalso.
        apply (header_200_not_404 fullpath (length data)). congruence.
      * intros [H _]. discriminate.
    + destruct isFallback.
      * destruct (H404 fullpath st Hfs) as (s1 & s2 & Hl).
        rewrite Hl in Hlog. apply app_inv_head in Hlog. subst evs.
        cbn [first_sent]. split; auto.
      * destruct (fs FALLBACK_PATH) as [data|] eqn:Hfb.
        -- destruct (send_file_missing fs net fullpath false st Hfs) as [Hl Heq].
           rewrite Heq in Hlog.
           destruct (send_file_opened fs net FALLBACK_PATH true
                       (snd (fopen fs fullpath st)) data Hfb) as (s0 & body & Hl2 & _).
           rewrite Hl2, Hl, <- app_assoc in Hlog.
           apply app_inv_head in Hlog. subst evs.
           cbn [first_sent app]. split.
           ++ intros H. exfalso.
              apply (header_200_not_404 FALLBACK_PATH (length data)).
              congruence.
           ++ intros [_ [H|H]]; discriminate.
        -- destruct (Hboth fullpath st Hfs eq_refl) as (s1 & s2 & Hl).
           rewrite Hl in Hlog. apply app_inv_head in Hlog. subst evs.
           cbn [first_sent]. split; auto.
Qed.

Lemma send_file_fallback_then_404_witness :
  fs_empty (str "/spiffs/app.js") = None /\
  fs_empty FALLBACK_PATH = None /\
  exists s1 s2 : Z,
    log (snd (send_file fs_empty net_whole (str "/spiffs/app.js") false
                initial)) =
      log initial ++
      [EvFopen (str "/spiffs/app.js") false; EvFopen FALLBACK_PATH false;
       EvSend HEADER_404 s1; EvSend BODY_404 s2].
Proof.
  split; [reflexivity|]. split; [reflexivity|].
  apply (proj1 (proj2 (proj2 (send_file_fallback_then_404 fs_empty net_whole))));
    reflexivity.
Defined.

(** C4. When [send_file] has opened a file, the log is: the open, the
    send of the 200 header that declares the length of the file, the
    sends of the body, the close of the file. If no send of the body
    reports an error, the bytes the body sends put on the wire are the
    contents of the file, in order, and as many as the header declares.
    A send of the body that reports an error is the last one: the file is
    closed right after it. Within a chunk, [send_chunk] sends again from
    where the last send stopped until the chunk is through. *)
Theorem send_file_streams_whole_file
    (fs : cstring -> option (list ascii)) (net : nat -> send_outcome) :
  (forall (fullpath : cstring) (isFallback : bool) (st : conn)
          (data : list ascii),
      fs fullpath = Some data ->
      exists (s0 : Z) (body : list event),
        log (snd (send_file fs net fullpath isFallback st)) =
          log st ++
          [EvFopen fullpath true;
           EvSend (snprintf HEADER_SIZE
                     (header_200_text (get_mime_type fullpath) (length data)))
                  s0]
          ++ body ++ [EvFclose fullpath] /\
        Forall (fun e => is_send e = true) body /\
        (no_send_error body = true ->
         wire body = data /\ length (wire body) = length data) /\
        (forall pre e post,
            body = pre ++ e :: post -> is_send_error e = true -> post = [])) /\
  (forall (fullpath : cstring) (filesize : nat),
      (Z.of_nat filesize <= LONG_MAX)%Z ->
      snprintf HEADER_SIZE
        (header_200_text (get_mime_type fullpath) filesize) =
        str "HTTP/1.1 200 OK" ++ CRLF ++
        str "Content-Type: " ++ get_mime_type fullpath ++ CRLF ++
        str "Content-Length: " ++ decimal filesize ++ CRLF ++
        str "Connection: close" ++ CRLF ++ CRLF /\
      value_rev (rev (decimal filesize)) = filesize) /\
  (forall (f : FILE) (buf : list ascii) (st : conn),
      exists evs : list event,
        log (snd (send_chunk net f buf 0 st)) =
          log st ++ evs ++
          (if fst (send_chunk net f buf 0 st) then []
           else [EvFclose (f_path f)]) /\
        (if fst (send_chunk net f buf 0 st)
         then no_send_error evs = true /\ wire evs = buf
         else exists pre d s,
             evs = pre ++ [EvSend d s] /\ (s < 0)%Z /\
             no_send_error pre = true)).
Proof.
  split; [|split].
  - intros fullpath isFallback st data Hfs.
    destruct (send_file_opened fs net fullpath isFallback st data Hfs)
      as (s0 & body & Hlog & Hsend & Hwire & Hlast & _).
    exists s0, body. repeat split; try assumption.
    + apply Hwire. assumption.
    + rewrite Hwire by assumption. reflexivity.
  - intros fullpath filesize Hsize. split.
    + exact (header_200_whole fullpath filesize Hsize).
    + apply decimal_value.
  - intros f buf st.
    destruct (send_chunk_log net f buf (length buf - 0) 0 st eq_refl
                ltac:(lia)) as (evs & Hlog & _ & Hres).
    exists evs. split; [exact Hlog|]. exact Hres.
Qed.

Lemma send_file_streams_whole_file_witness :
  fs_index_only FALLBACK_PATH = Some (str "<h1>hi</h1>") /\
  exists (s0 : Z) (body : list event),
    log (snd (send_file fs_index_only net_bytewise FALLBACK_PATH false
                initial)) =
      log initial ++
      [EvFopen FALLBACK_PATH true;
       EvSend (snprintf HEADER_SIZE
                 (header_200_text (get_mime_type FALLBACK_PATH)
                    (length (str "<h1>hi</h1>"))))
              s0]
      ++ body ++ [EvFclose FALLBACK_PATH] /\
    Forall (fun e => is_send e = true) body /\
    (no_send_error body = true ->
     wire body = str "<h1>hi</h1>" /\
     length (wire body) = length (str "<h1>hi</h1>")) /\
    (forall pre e post,
        body = pre ++ e :: post -> is_send_error e = true -> post = []).
Proof.
  split; [reflexivity|].
  apply (proj1 (send_file_streams_whole_file fs_index_only net_bytewise)).
  reflexivity.
Defined.

(** A run in which the third [send] fails: the header and a first part
    of the chunk are taken, the failing send is followed by the close
    of the file and nothing else. *)
Example send_file_aborts_on_send_error :
  log (snd (send_file fs_index_only net_fails_third FALLBACK_PATH false
              initial)) =
    [EvFopen FALLBACK_PATH true;
     EvSend (HEADER_200 FALLBACK_PATH 11) 4;
     EvSend (str "<h1>hi</h1>") 4;
     EvSend (str "hi</h1>") (-1);
     EvFclose FALLBACK_PATH].
Proof. vm_compute. reflexivity. Qed.

(** ** handle_client *)

Lemma count_app (p : event -> bool) (a b : list event) :
  count p (a ++ b) = count p a + count p b.
Proof. unfold count. rewrite filter_app, length_app. reflexivity. Qed.

Lemma count_file_or_send (p : event -> bool) (evs : list event) :
  (forall e, is_file_or_send e = true -> p e = false) ->
  Forall (fun e => is_file_or_send e = true) evs -> count p evs = 0.
Proof.
  intros Hp. induction 1 as [|e evs He _ IH]; [reflexivity|].
  unfold count in *. simpl. rewrite (Hp e He). exact IH.
Qed.

(** The log of one run of the handler. *)
Lemma handle_client_log (fs : cstring -> option (list ascii))
    (net : nat -> send_outcome) (rx : option (list ascii)) (st : conn) :
  let recv_buf := match rx with
                  | Some pending => firstn RECV_BUF_LEN pending
                  | None => []
                  end in
  let r := match rx with
           | Some _ => Z.of_nat (length recv_buf)
           | None => (-1)%Z
           end in
  let st1 := mkConn (sends st) (log st ++ [EvRecv r]) in
  let safe_path :=
    sanitize_path (Some (parse_request_path (cstr recv_buf) PATH_BUF_SIZE))
      PATH_BUF_SIZE in
  if (r <=? 0)%Z
  then log (snd (handle_client fs net rx st)) = log st ++ [EvRecv r; EvClose]
  else log (snd (handle_client fs net rx st)) =
         log (snd (send_file fs net safe_path false st1))
         ++ [EvShutdown; EvClose].
Proof.
  intros recv_buf r st1 safe_path.
  unfold handle_client, bind, recv. subst r recv_buf.
  destruct rx as [pending|]; cbv beta iota.
  - fold st1. destruct (Z.of_nat (length (firstn RECV_BUF_LEN pending)) <=? 0)%Z.
    + unfold close, emit. cbn [snd log]. subst st1. cbn [log].
      rewrite <- app_assoc. reflexivity.
    + fold safe_path.
      destruct (send_file fs net safe_path false st1) as [u st2].
      unfold shutdown, close, emit. cbn [snd log].
      rewrite <- app_assoc. reflexivity.
  - change (-1 <=? 0)%Z with true. cbv iota.
    unfold close, emit. cbn [snd log]. rewrite <- app_assoc. reflexivity.
Qed.

(** C8. The handler receives once. If [recv] returns zero or less, it
    closes the connection and does nothing else. Otherwise it serves the
    sanitized path of the parsed request with [send_file], which only
    touches the file and sends, then shuts the connection down and closes
    it. In both cases the connection is closed exactly once, as the last
    call. *)
Theorem handle_client_closes_once
    (fs : cstring -> option (list ascii)) (net : nat -> send_outcome)
    (rx : option (list ascii)) (st : conn) :
  exists (r : Z) (evs : list event),
    log (snd (handle_client fs net rx st)) = log st ++ evs /\
    count is_recv evs = 1 /\
    count is_close evs = 1 /\
    ((r <= 0)%Z /\ (rx = None \/ rx = Some []) /\ evs = [EvRecv r; EvClose]
     \/
     (0 < r)%Z /\
     exists (recv_buf : list ascii) (fe : list event),
       rx <> None /\
       Some recv_buf = option_map (firstn RECV_BUF_LEN) rx /\
       r = Z.of_nat (length recv_buf) /\
       log (snd (send_file fs net
                   (sanitize_path
                      (Some (parse_request_path (cstr recv_buf) PATH_BUF_SIZE))
                      PATH_BUF_SIZE)
                   false (mkConn (sends st) (log st ++ [EvRecv r])))) =
         (log st ++ [EvRecv r]) ++ fe /\
       Forall (fun e => is_file_or_send e = true) fe /\
       evs = EvRecv r :: fe ++ [EvShutdown; EvClose]).
Proof.
  pose proof (handle_client_log fs net rx st) as H. cbv zeta in H.
  destruct rx as [pending|].
  - destruct (Z.of_nat (length (firstn RECV_BUF_LEN pending)) <=? 0)%Z eqn:E.
    + apply Z.leb_le in E.
      exists (Z.of_nat (length (firstn RECV_BUF_LEN pending))).
      exists [EvRecv (Z.of_nat (length (firstn RECV_BUF_LEN pending))); EvClose].
      repeat split; try exact H. left. repeat split; [exact E|].
      right. f_equal.
      assert (length (firstn RECV_BUF_LEN pending) = 0) as Hz by lia.
      rewrite length_firstn in Hz. unfold RECV_BUF_LEN in Hz.
      destruct pending; [reflexivity | simpl in Hz; lia].
    + apply Z.leb_gt in E.
      set (recv_buf := firstn RECV_BUF_LEN pending) in *.
      set (r := Z.of_nat (length recv_buf)) in *.
      destruct (send_file_events fs net
                  (sanitize_path
                     (Some (parse_request_path (cstr recv_buf) PATH_BUF_SIZE))
                     PATH_BUF_SIZE)
                  false (mkConn (sends st) (log st ++ [EvRecv r])))
        as (fe & Hfe & Hall).
      cbn [log] in Hfe.
      exists r, (EvRecv r :: fe ++ [EvShutdown; EvClose]).
      repeat split.
      * rewrite H, Hfe, <- !app_assoc. reflexivity.
      * change (EvRecv r :: fe ++ [EvShutdown; EvClose])
          with ([EvRecv r] ++ fe ++ [EvShutdown; EvClose]).
        rewrite !count_app, (count_file_or_send is_recv fe); try assumption.
        -- reflexivity.
        -- intros []; simpl; congruence.
      * change (EvRecv r :: fe ++ [EvShutdown; EvClose])
          with ([EvRecv r] ++ fe ++ [EvShutdown; EvClose]).
        rewrite !count_app, (count_file_or_send is_close fe); try assumption.
        -- reflexivity.
        -- intros []; simpl; congruence.
      * right. split; [exact E|].
        exists recv_buf, fe.
        repeat split; try assumption. discriminate.
  - exists (-1)%Z, [EvRecv (-1)%Z; EvClose].
    repeat split; try exact H. left. repeat split; [lia | left; reflexivity].
Qed.

(** ** Determinism of the response *)

Lemma wire_app (a b : list event) : wire (a ++ b) = wire a ++ wire b.
Proof. apply flat_map_app. Qed.

Lemma snprintf_length (buflen : nat) (text : cstring) :
  length (snprintf buflen text) <= buflen - 1.
Proof. unfold snprintf. rewrite length_firstn. lia. Qed.

Lemma first_send_whole_app (a b : list event) :
  first_send_whole (a ++ b) = true -> first_send_whole a = true.
Proof.
  induction a as [|e a IH]; [reflexivity|].
  destruct e; cbn [app first_send_whole]; auto.
Qed.

Lemma first_sent_app (a b : list event) (data : list ascii) :
  first_sent a = Some data -> first_sent (a ++ b) = Some data.
Proof.
  induction a as [|e a IH]; [discriminate|].
  destruct e; cbn [app first_sent]; auto.
Qed.

Lemma all_sends_whole_app (a b : list event) :
  all_sends_whole (a ++ b) = all_sends_whole a && all_sends_whole b.
Proof. apply forallb_app. Qed.

Lemma accepted_whole (data : list ascii) (s : Z) :
  (s =? Z.of_nat (length data))%Z = true -> accepted (EvSend data s) = data.
Proof.
  intros H. apply Z.eqb_eq in H. subst s. cbn [accepted].
  rewrite Nat2Z.id. apply firstn_all.
Qed.

(** What [send_file] puts on the wire. When a file is opened, it is
    the header and the contents of the file provided the header was
    taken whole and no [send] failed; the chunks of the body may have
    been split in any way. The 404 response is sent with two [send]
    calls, which both must have taken their buffer whole. *)
Lemma send_file_wire (fs : cstring -> option (list ascii))
    (net : nat -> send_outcome) (fullpath : cstring) (st : conn) :
  exists evs : list event,
    log (snd (send_file fs net fullpath false st)) = log st ++ evs /\
    match fs fullpath, fs FALLBACK_PATH with
    | Some data, _ =>
        first_send_whole evs = true -> no_send_error evs = true ->
        wire evs = HEADER_200 fullpath (length data) ++ data
    | None, Some data =>
        first_send_whole evs = true -> no_send_error evs = true ->
        wire evs = HEADER_200 FALLBACK_PATH (length data) ++ data
    | None, None =>
        first_sent evs = Some HEADER_404 /\
        (all_sends_whole evs = true -> wire evs = HEADER_404 ++ BODY_404)
    end.
Proof.
  assert (forall path b st' data,
             fs path = Some data ->
             exists evs : list event,
               log (snd (send_file fs net path b st')) = log st' ++ evs /\
               (first_send_whole evs = true -> no_send_error evs = true ->
                wire evs = HEADER_200 path (length data) ++ data)) as Hopen.
  { intros path b st' data Hfs.
    destruct (send_file_opened fs net path b st' data Hfs)
      as (s0 & body & Hlog & _ & Hwire & _).
    eexists. split; [exact Hlog|].
    cbn [app first_send_whole]. intros Hfirst Hok.
    change (EvFopen path true
              :: EvSend (HEADER_200 path (length data)) s0
              :: body ++ [EvFclose path])
      with ([EvFopen path true;
             EvSend (HEADER_200 path (length data)) s0]
              ++ body ++ [EvFclose path]) in *.
    rewrite !no_send_error_app in Hok.
    apply andb_true_iff in Hok. destruct Hok as [_ Hok].
    apply andb_true_iff in Hok. destruct Hok as [Hok _].
    rewrite !wire_app, (Hwire Hok).
    cbn [wire flat_map]. rewrite (accepted_whole _ _ Hfirst).
    cbn [accepted app]. rewrite !app_nil_r. reflexivity. }
  assert (forall st',
             fs FALLBACK_PATH = None ->
             exists evs : list event,
               log (snd (send_file fs net FALLBACK_PATH true st')) =
                 log st' ++ evs /\
               first_sent evs = Some HEADER_404 /\
               (all_sends_whole evs = true ->
                wire evs = HEADER_404 ++ BODY_404)) as H404.
  { intros st' Hfb.
    destruct (send_file_missing fs net FALLBACK_PATH true st' Hfb) as [Hl ->].
    destruct (send_404_log net (snd (fopen fs FALLBACK_PATH st')))
      as (s1 & s2 & H404).
    eexists. split; [|split].
    - rewrite H404, Hl, <- app_assoc. reflexivity.
    - reflexivity.
    - cbn [app all_sends_whole forallb sent_whole andb]. intros Hall.
      apply andb_true_iff in Hall. destruct Hall as [H1 Hall].
      apply andb_true_iff in Hall. destruct Hall as [H2 _].
      cbn [wire flat_map].
      rewrite (accepted_whole _ _ H1), (accepted_whole _ _ H2).
      cbn [accepted app]. rewrite app_nil_r. reflexivity. }
  destruct (fs fullpath) as [data|] eqn:Hfs.
  - apply Hopen. exact Hfs.
  - destruct (send_file_missing fs net fullpath false st Hfs) as [Hl Heq].
    rewrite Heq.
    destruct (fs FALLBACK_PATH) as [data|] eqn:Hfb.
    + destruct (Hopen FALLBACK_PATH true (snd (fopen fs fullpath st)) data Hfb)
        as (evs & Hlog & Hwire).
      exists (EvFopen fullpath false :: evs). split.
      * rewrite Hlog, Hl, <- app_assoc. reflexivity.
      * exact Hwire.
    + destruct (H404 (snd (fopen fs fullpath st)) eq_refl)
        as (evs & Hlog & Hfirst & Hwire).
      exists (EvFopen fullpath false :: evs). split.
      * rewrite Hlog, Hl, <- app_assoc. reflexivity.
      * split; [exact Hfirst | exact Hwire].
Qed.

(** The log of a run that received bytes, around the events of
    [send_file]. *)
Lemma handle_client_serving (fs : cstring -> option (list ascii))
    (net : nat -> send_outcome) (pending : list ascii) (st : conn)
    (fe : list event) :
  pending <> [] ->
  log (snd (send_file fs net
              (sanitize_path
                 (Some (parse_request_path
                          (cstr (firstn RECV_BUF_LEN pending)) PATH_BUF_SIZE))
                 PATH_BUF_SIZE)
              false
              (mkConn (sends st)
                 (log st ++
                  [EvRecv (Z.of_nat (length (firstn RECV_BUF_LEN pending)))]))))
    = (log st ++
       [EvRecv (Z.of_nat (length (firstn RECV_BUF_LEN pending)))]) ++ fe ->
  log (snd (handle_client fs net (Some pending) st)) =
    log st ++
    [EvRecv (Z.of_nat (length (firstn RECV_BUF_LEN pending)))] ++ fe ++
    [EvShutdown; EvClose].
Proof.
  intros Hne Hfe.
  pose proof (handle_client_log fs net (Some pending) st) as H.
  cbv beta iota zeta in H.
  assert ((Z.of_nat (length (firstn RECV_BUF_LEN pending)) <=? 0)%Z = false)
    as E.
  { apply Z.leb_gt. rewrite length_firstn. unfold RECV_BUF_LEN.
    destruct pending; [congruence | simpl length; lia]. }
  rewrite E in H. rewrite H, Hfe, <- !app_assoc. reflexivity.
Qed.

(** The readings of the whole log of a run, from those of the events of
    [send_file] in it. *)
Lemma serving_readings (r : Z) (fe : list event) :
  let evs := [EvRecv r] ++ fe ++ [EvShutdown; EvClose] in
  wire evs = wire fe /\
  (first_send_whole evs = true -> first_send_whole fe = true) /\
  (no_send_error evs = true -> no_send_error fe = true) /\
  (all_sends_whole evs = true -> all_sends_whole fe = true) /\
  (forall data, first_sent fe = Some data -> first_sent evs = Some data).
Proof.
  cbv zeta. repeat split.
  - rewrite !wire_app. cbn [wire flat_map accepted app].
    apply app_nil_r.
  - cbn [app first_send_whole]. apply first_send_whole_app.
  - rewrite !no_send_error_app. intros H.
    apply andb_true_iff in H. destruct H as [_ H].
    apply andb_true_iff in H. destruct H as [H _]. exact H.
  - rewrite !all_sends_whole_app. intros H.
    apply andb_true_iff in H. destruct H as [_ H].
    apply andb_true_iff in H. destruct H as [H _]. exact H.
  - intros data H. cbn [app first_sent]. apply first_sent_app. exact H.
Qed.

(** In a run where the header was taken whole and no [send] failed
    (the chunks of the body may have been split), and where the body of
    a 404 response was taken whole too, what the handler puts on the
    wire is [response]: a function of the filesystem and of the bytes
    received. *)
Lemma handle_client_response (fs : cstring -> option (list ascii))
    (net : nat -> send_outcome) (rx : option (list ascii)) (st : conn) :
  exists evs : list event,
    log (snd (handle_client fs net rx st)) = log st ++ evs /\
    (first_send_whole evs = true ->
     no_send_error evs = true ->
     (first_sent evs = Some HEADER_404 -> all_sends_whole evs = true) ->
     wire evs = response fs rx).
Proof.
  unfold response. destruct rx as [pending|].
  - destruct pending as [|c pending'] eqn:Ep.
    + pose proof (handle_client_log fs net (Some []) st) as H.
      cbv zeta in H. cbn [firstn length Nat.eqb] in *.
      rewrite firstn_nil in *. cbn [length Nat.eqb] in *.
      change (Z.of_nat 0 <=? 0)%Z with true in H. cbv iota in H.
      eexists. split; [exact H|]. intros _ _ _. reflexivity.
    + rewrite <- Ep. assert (pending <> []) as Hne by (subst; discriminate).
      clear Ep.
      assert ((length (firstn RECV_BUF_LEN pending) =? 0) = false) as ->.
      { apply Nat.eqb_neq. rewrite length_firstn.
        unfold RECV_BUF_LEN. destruct pending; [congruence | simpl length; lia]. }
      destruct (send_file_wire fs net
                  (sanitize_path
                     (Some (parse_request_path
                              (cstr (firstn RECV_BUF_LEN pending))
                              PATH_BUF_SIZE))
                     PATH_BUF_SIZE)
                  (mkConn (sends st)
                     (log st ++
                      [EvRecv (Z.of_nat
                                 (length (firstn RECV_BUF_LEN pending)))])))
        as (fe & Hlog & Hcase).
      cbn [log] in Hlog.
      pose proof (handle_client_serving fs net pending st fe Hne Hlog) as H.
      destruct (serving_readings
                  (Z.of_nat (length (firstn RECV_BUF_LEN pending))) fe)
        as (Hw & Hfirst & Hok & Hall & Hsent).
      eexists. split; [exact H|].
      intros H1 H2 H3. rewrite Hw.
      destruct (fs (sanitize_path
                      (Some (parse_request_path
                               (cstr (firstn RECV_BUF_LEN pending))
                               PATH_BUF_SIZE))
                      PATH_BUF_SIZE)) as [data|].
      * apply Hcase; auto.
      * destruct (fs FALLBACK_PATH) as [data|].
        -- apply Hcase; auto.
        -- destruct Hcase as [H404 Hwire]. apply Hwire, Hall, H3, Hsent, H404.
  - pose proof (handle_client_log fs net None st) as H. cbv zeta in H.
    change (-1 <=? 0)%Z with true in H. cbv iota in H.
    eexists. split; [exact H|]. intros _ _ _. reflexivity.
Qed.

(** Two runs on the same bytes and the same filesystem put the same
    bytes on the wire, whatever the two transports, when in both the
    header was taken whole and no [send] failed (and the body of a 404
    response was taken whole). *)
Lemma handle_client_deterministic (fs : cstring -> option (list ascii))
    (net1 net2 : nat -> send_outcome) (rx : option (list ascii))
    (st1 st2 : conn) (evs1 evs2 : list event) :
  log (snd (handle_client fs net1 rx st1)) = log st1 ++ evs1 ->
  log (snd (handle_client fs net2 rx st2)) = log st2 ++ evs2 ->
  first_send_whole evs1 = true -> first_send_whole evs2 = true ->
  no_send_error evs1 = true -> no_send_error evs2 = true ->
  (first_sent evs1 = Some HEADER_404 -> all_sends_whole evs1 = true) ->
  (first_sent evs2 = Some HEADER_404 -> all_sends_whole evs2 = true) ->
  wire evs1 = wire evs2.
Proof.
  intros Hl1 Hl2 Hf1 Hf2 Hok1 Hok2 Ha1 Ha2.
  destruct (handle_client_response fs net1 rx st1) as (e1 & He1 & Hw1).
  destruct (handle_client_response fs net2 rx st2) as (e2 & He2 & Hw2).
  rewrite He1 in Hl1. rewrite He2 in Hl2.
  apply app_inv_head in Hl1, Hl2. subst.
  rewrite Hw1, Hw2 by assumption. reflexivity.
Qed.

(** C9. The response is claimed to be the same for the same request
    bytes and filesystem whenever the transport does not fail. It is so
    among the runs in which the header is taken whole
    ([handle_client_deterministic]). But [send_file] sends the header
    with one [send] whose result it drops, where the body loop sends the
    rest again: over [net_bytewise], which never fails and takes one byte
    per call, the request [GET_ROOT] on [fs_index_only] is answered with
    the first byte of the header followed by the whole body, and over
    [net_whole] with the whole header and the body. *)
Theorem handle_client_header_short_write :
  never_fails net_whole /\ never_fails net_bytewise /\
  no_send_error
    (log (snd (handle_client fs_index_only net_whole (Some GET_ROOT) initial)))
    = true /\
  no_send_error
    (log (snd (handle_client fs_index_only net_bytewise (Some GET_ROOT)
                 initial))) = true /\
  wire (log (snd (handle_client fs_index_only net_whole (Some GET_ROOT)
                    initial))) =
    HEADER_200 FALLBACK_PATH 11 ++ str "<h1>hi</h1>" /\
  wire (log (snd (handle_client fs_index_only net_bytewise (Some GET_ROOT)
                    initial))) =
    str "H" ++ str "<h1>hi</h1>" /\
  wire (log (snd (handle_client fs_index_only net_whole (Some GET_ROOT)
                    initial))) <>
  wire (log (snd (handle_client fs_index_only net_bytewise (Some GET_ROOT)
                    initial))).
Proof.
  assert (wire (log (snd (handle_client fs_index_only net_whole
                            (Some GET_ROOT) initial))) =
          HEADER_200 FALLBACK_PATH 11 ++ str "<h1>hi</h1>") as Hw
    by (vm_compute; reflexivity).
  assert (wire (log (snd (handle_client fs_index_only net_bytewise
                            (Some GET_ROOT) initial))) =
          str "H" ++ str "<h1>hi</h1>") as Hb
    by (vm_compute; reflexivity).
  split; [intros i; discriminate|].
  split; [intros i; discriminate|].
  split; [vm_compute; reflexivity|].
  split; [vm_compute; reflexivity|].
  split; [exact Hw|]. split; [exact Hb|].
  rewrite Hw, Hb. vm_compute. discriminate.
Qed.

(** * Further properties *)

(** ** sanitize_path *)

Lemma sanitize_path_normal_form (req : cstring) (buflen : nat) :
  sanitize_path (Some req) buflen =
    snprintf buflen
      (SPIFFS_BASE_PATH ++ str "/" ++
       index_or (accumulate (kept (split_slash (skip_leading_slash req))) [])).
Proof.
  unfold sanitize_path. destruct (strcmp_eq req (str "/")) eqn:E.
  - apply strcmp_eq_eq in E. subst req. reflexivity.
  - rewrite sanitize_loop_accumulate, accumulate_kept. reflexivity.
Qed.

Lemma kept_skip_leading_slash (p : cstring) :
  kept (split_slash (skip_leading_slash p)) = kept (split_slash p).
Proof.
  destruct p as [|c r]; [reflexivity|]. cbn [skip_leading_slash].
  destruct (Ascii.eqb c "/") eqn:E; [|reflexivity].
  cbn [split_slash]. rewrite E. reflexivity.
Qed.

(** X1. Whatever the request path, the sanitized path begins with
    ["/spiffs/"] and fits the output buffer with its terminator. *)
Theorem sanitize_path_rooted_and_fits (req_path : option cstring)
    (buflen : nat) (Hbuf : 9 <= buflen) :
  exists tail : cstring,
    sanitize_path req_path buflen = str "/spiffs/" ++ tail /\
    length (sanitize_path req_path buflen) <= buflen - 1.
Proof.
  destruct (sanitize_path_rooted req_path buflen Hbuf) as [tail Htail].
  exists tail. split; [exact Htail|].
  unfold sanitize_path.
  destruct req_path as [req|]; [destruct (strcmp_eq req (str "/"))|];
    apply snprintf_length.
Qed.

Lemma sanitize_path_rooted_and_fits_witness :
  9 <= 12 /\
  exists tail : cstring,
    sanitize_path (Some (str "/css/site.css")) 12 = str "/spiffs/" ++ tail /\
    length (sanitize_path (Some (str "/css/site.css")) 12) <= 12 - 1.
Proof.
  split; [lia|].
  apply (sanitize_path_rooted_and_fits (Some (str "/css/site.css")) 12). lia.
Defined.

Lemma split_slash_total (s : cstring) :
  seg_total (split_slash s) = length s + 1.
Proof.
  induction s as [|c r IH]; [reflexivity|]. cbn [split_slash].
  destruct (Ascii.eqb c "/").
  - cbn [seg_total fold_right] in *. fold (seg_total (split_slash r)).
    rewrite IH. simpl. lia.
  - pose proof (split_slash_nonempty r) as Hne.
    destruct (split_slash r) as [|sg more]; [congruence|].
    cbn [seg_total fold_right length] in *. lia.
Qed.

Lemma push_segment_length_le (acc sg : cstring) :
  length (push_segment acc sg) <= length acc + length sg + 1.
Proof.
  unfold push_segment. destruct (length acc =? 0);
    rewrite ?length_app; simpl; lia.
Qed.

Lemma accumulate_length (segs : list cstring) (acc : cstring) :
  length (accumulate segs acc) <= length acc + seg_total segs.
Proof.
  revert acc; induction segs as [|sg more IH]; intros acc;
    cbn [accumulate seg_total fold_right]; [lia|].
  fold (seg_total more).
  pose proof (IH acc). pose proof (IH (push_segment acc sg)).
  pose proof (push_segment_length_le acc sg).
  destruct (negb (length acc + 1 <? TMP_SIZE)); [lia|].
  destruct (length sg =? 0); [lia|].
  destruct (cstring_eqb sg dotdot); [lia|].
  destruct (TMP_SIZE <=? length acc + length sg + 1); lia.
Qed.

Lemma accumulate_length_nil (segs : list cstring) :
  segs <> [] -> length (accumulate segs []) + 1 <= seg_total segs.
Proof.
  induction segs as [|sg more IH]; intros Hne; [congruence|].
  cbn [accumulate seg_total fold_right]. fold (seg_total more).
  destruct (negb (length (@nil ascii) + 1 <? TMP_SIZE)); [simpl; lia|].
  assert (length (accumulate more []) <= seg_total more) as Hmore.
  { destruct more as [|x more']; [simpl; lia|].
    assert (x :: more' <> []) as Hx by discriminate.
    specialize (IH Hx). lia. }
  destruct (length sg =? 0); [lia|].
  destruct (cstring_eqb sg dotdot); [lia|].
  destruct (TMP_SIZE <=? length (@nil ascii) + length sg + 1); [simpl; lia|].
  pose proof (accumulate_length more (push_segment [] sg)) as H.
  change (push_segment [] sg) with sg in *. lia.
Qed.

(** X2. The accumulator [tmp] never outgrows its 256 bytes: whatever the
    path and however long, the loop leaves at most 255 characters in it,
    and never more than the path has. *)
Theorem sanitize_loop_within_tmp (seg : cstring) :
  length (sanitize_loop seg []) < TMP_SIZE /\
  length (sanitize_loop seg []) <= length seg.
Proof.
  split.
  - apply sanitize_loop_bounded. unfold TMP_SIZE. simpl. lia.
  - rewrite sanitize_loop_accumulate.
    pose proof (accumulate_length_nil (split_slash seg)
                  (split_slash_nonempty seg)) as H.
    rewrite split_slash_total in H. lia.
Qed.

(** X3. The accumulator never holds an empty segment or a [".."]
    segment, and as long as the output buffer holds the whole path the
    sanitized path has no [".."] segment. *)
Theorem sanitize_path_clean_unless_cut :
  (forall seg sg : cstring,
      sanitize_loop seg [] <> [] ->
      In sg (split_slash (sanitize_loop seg [])) ->
      sg <> [] /\ sg <> dotdot) /\
  (forall (req : cstring) (buflen : nat),
      length (index_or (sanitize_loop (skip_leading_slash req) [])) + 9
        <= buflen ->
      19 <= buflen ->
      ~ has_dotdot_segment (sanitize_path (Some req) buflen)).
Proof.
  split.
  - intros seg sg Hne Hin.
    destruct (sanitize_loop_clean seg) as [H|H]; [contradiction|].
    rewrite Forall_forall in H. exact (H sg Hin).
  - exact sanitize_path_no_dotdot_unless_cut.
Qed.

Lemma sanitize_path_clean_unless_cut_witness :
  ~ has_dotdot_segment (sanitize_path (Some (str "/a/../..b//c")) 256).
Proof.
  apply (proj2 sanitize_path_clean_unless_cut (str "/a/../..b//c") 256).
  - vm_compute. lia.
  - lia.
Defined.

(** X4. The sanitized path depends on the request path only through
    its segments that are neither empty nor [".."]: two request paths
    with the same such segments are sanitized to the same path. *)
Theorem sanitize_path_depends_on_kept_segments
    (req1 req2 : cstring) (buflen : nat) :
  kept (split_slash (skip_leading_slash req1)) =
    kept (split_slash (skip_leading_slash req2)) ->
  sanitize_path (Some req1) buflen = sanitize_path (Some req2) buflen.
Proof.
  intros H. rewrite !sanitize_path_normal_form, H. reflexivity.
Qed.

Lemma sanitize_path_depends_on_kept_segments_witness :
  sanitize_path (Some (str "/a//b/../c")) 256 =
    sanitize_path (Some (str "a/../b/c/")) 256.
Proof.
  apply sanitize_path_depends_on_kept_segments. vm_compute. reflexivity.
Defined.

(** X5. Leading slashes do not matter, and a null request path is
    sanitized as the empty one. *)
Theorem sanitize_path_leading_slash (p : cstring) (buflen : nat) :
  sanitize_path (Some ("/"%char :: p)) buflen = sanitize_path (Some p) buflen /\
  sanitize_path None buflen = sanitize_path (Some []) buflen.
Proof.
  split; [|reflexivity].
  rewrite !sanitize_path_normal_form.
  change (skip_leading_slash ("/"%char :: p)) with p.
  rewrite kept_skip_leading_slash. reflexivity.
Qed.

(** ** parse_request_path *)

Lemma firstn_incl (n : nat) (l : cstring) (c : ascii) :
  In c (firstn n l) -> In c l.
Proof.
  intros H. rewrite <- (firstn_skipn n l). apply in_or_app. left. exact H.
Qed.

Lemma skipn_incl (n : nat) (l : cstring) (c : ascii) :
  In c (skipn n l) -> In c l.
Proof.
  intros H. rewrite <- (firstn_skipn n l). apply in_or_app. right. exact H.
Qed.

(** X6. Whatever the request, the parsed path fits the destination
    buffer with its terminator, contains no space, and consists of
    characters of the request (or is the default ["/"]). *)
Theorem parse_request_path_fits_without_space
    (req : cstring) (pathbuflen : nat) (Hlen : 2 <= pathbuflen) :
  length (parse_request_path req pathbuflen) < pathbuflen /\
  ~ In " "%char (parse_request_path req pathbuflen) /\
  (parse_request_path req pathbuflen = str "/" \/
   forall c : ascii, In c (parse_request_path req pathbuflen) -> In c req).
Proof.
  assert (strncpy (str "/") pathbuflen = str "/") as Hroot.
  { unfold strncpy. apply firstn_all2. simpl. lia. }
  unfold parse_request_path.
  destruct (strchr req " ") as [i1|] eqn:E1.
  - destruct (strchr (skipn (S i1) req) " ") as [len|] eqn:E2.
    + set (after := skipn (S i1) req) in *.
      set (len' := if pathbuflen <=? len then pathbuflen - 1 else len).
      assert (len' <= len /\ len' < pathbuflen) as [Hle Hlt].
      { subst len'. destruct (pathbuflen <=? len) eqn:E;
          [apply Nat.leb_le in E | apply Nat.leb_gt in E]; lia. }
      destruct (strchr_firstn_skipn after " " len E2) as [_ Hnone].
      apply strchr_none_iff in Hnone.
      repeat split.
      * rewrite length_firstn. lia.
      * intros Hin. apply Hnone.
        replace len' with (Nat.min len' len) in Hin by lia.
        rewrite <- firstn_firstn in Hin. exact (firstn_incl _ _ _ Hin).
      * right. intros c Hin.
        apply firstn_incl in Hin. exact (skipn_incl _ _ _ Hin).
    + rewrite Hroot. repeat split; try (simpl; lia); [|left; reflexivity].
      simpl. intros [H|[]]. discriminate H.
  - rewrite Hroot. repeat split; try (simpl; lia); [|left; reflexivity].
    simpl. intros [H|[]]. discriminate H.
Qed.

Lemma parse_request_path_fits_without_space_witness :
  2 <= 4 /\
  length (parse_request_path (str "GET /index.html HTTP/1.1") 4) < 4 /\
  ~ In " "%char (parse_request_path (str "GET /index.html HTTP/1.1") 4).
Proof.
  split; [lia|].
  destruct (parse_request_path_fits_without_space
              (str "GET /index.html HTTP/1.1") 4) as (H1 & H2 & _); [lia|].
  split; assumption.
Defined.

(** ** get_mime_type *)

Lemma no_nul_forallb (s : cstring) :
  forallb (fun c => negb (Ascii.eqb c NUL)) s = true -> no_nul s.
Proof.
  unfold no_nul. rewrite Forall_forall, forallb_forall.
  intros H c Hin. apply Ascii.eqb_neq, negb_true_iff, H, Hin.
Qed.

(** The [strcasecmp] chain is the lookup of the lower-cased extension. *)
Lemma mime_chain_lookup (path : cstring) :
  no_nul path -> get_mime_type path = resolve_spec path.
Proof.
  intros Hnul. unfold get_mime_type, resolve_spec.
  rewrite strrchr_extension_of.
  destruct (strrchr path ".") as [k|]; cbn [option_map]; [|reflexivity].
  assert (forall key : string,
             no_nul (str key) -> lowercase (str key) = str key ->
             (strcasecmp (skipn (S k) path) (str key) =? 0)%Z =
               cstring_eqb (lowercase (skipn (S k) path)) (str key)) as Hcmp.
  { intros key Hk Hlow. rewrite strcasecmp_zero, Hlow;
      [reflexivity | apply no_nul_skipn, Hnul | exact Hk]. }
  rewrite !Hcmp by (try (apply no_nul_forallb); reflexivity).
  unfold mime_table. cbn [table_lookup].
  repeat match goal with
         | |- context [cstring_eqb ?a ?b] => destruct (cstring_eqb a b)
         end; reflexivity.
Qed.

Lemma table_lookup_foreign_char (c : ascii) (key : cstring)
    (table : list (cstring * cstring)) :
  Forall (fun kv => ~ In c (fst kv)) table -> In c key ->
  table_lookup key table = None.
Proof.
  intros Htable Hin. induction Htable as [|[k v] more Hk _ IH];
    [reflexivity|].
  cbn [table_lookup]. destruct (cstring_eqb key k) eqn:E; [|exact IH].
  apply cstring_eqb_eq in E. subst k. contradiction.
Qed.

(** X7. The content type is always one of the thirteen constants of the
    function; in particular it has at most 25 characters and holds no CR
    or LF, whatever the path. *)
Theorem get_mime_type_closed_vocabulary (path : cstring) :
  (get_mime_type path = MIME_OCTET \/
   In (get_mime_type path) (map snd mime_table)) /\
  length (get_mime_type path) <= 25 /\
  ~ In CR (get_mime_type path) /\ ~ In LF (get_mime_type path).
Proof.
  unfold get_mime_type. destruct (strrchr path ".") as [k|].
  - repeat match goal with
           | |- context [if ?c then _ else _] => destruct c
           end;
      (split; [first [left; reflexivity
                     | right; cbn [map mime_table snd];
                       repeat (first [left; reflexivity | right])]
              | split; [simpl; lia
                       | split; vm_compute; intuition discriminate]]).
  - split; [left; reflexivity|].
    split; [simpl; lia|]. split; vm_compute; intuition discriminate.
Qed.

(** X8. The extension is looked for after the last ['.'] of the whole
    path: when that dot is in a directory name, so that a ['/'] follows
    it, the type is the default one. *)
Theorem get_mime_type_dot_in_directory (pre ext : cstring) :
  no_nul (pre ++ "."%char :: ext) ->
  ~ In "."%char ext -> In "/"%char ext ->
  get_mime_type (pre ++ "."%char :: ext) = MIME_OCTET.
Proof.
  intros Hnul Hdot Hslash. rewrite mime_chain_lookup by exact Hnul.
  unfold resolve_spec. rewrite extension_of_last_dot by exact Hdot.
  rewrite (table_lookup_foreign_char "/" (lowercase ext)); [reflexivity | |].
  - unfold mime_table. repeat constructor; vm_compute; intuition discriminate.
  - unfold lowercase. change "/"%char with (tolower "/"%char).
    apply in_map. exact Hslash.
Qed.

Lemma get_mime_type_dot_in_directory_witness :
  get_mime_type (str "/spiffs/v1" ++ "."%char :: str "2/html") = MIME_OCTET.
Proof.
  apply get_mime_type_dot_in_directory.
  - apply no_nul_forallb. reflexivity.
  - simpl. intuition discriminate.
  - simpl. tauto.
Defined.

(** ** send_file *)

Section ResponderShape.

Variable fs : cstring -> option (list ascii).
Variable net : nat -> send_outcome.

#[local] Opaque FILE_CHUNK.

Lemma firstn_skipn_length (n : nat) (l : list ascii) :
  firstn n l ++ skipn (length (firstn n l)) l = l.
Proof.
  rewrite length_firstn. destruct (Nat.le_ge_cases n (length l)).
  - rewrite Nat.min_l by lia. apply firstn_skipn.
  - rewrite Nat.min_r by lia. rewrite skipn_all, app_nil_r.
    apply firstn_all2. lia.
Qed.

(** What the inner loop offers and what gets through: every send offers
    a non-empty part of the chunk, and the accepted bytes are an initial
    part of what was left to send (all of it when the loop succeeds). *)
Lemma send_chunk_shape (f : FILE) (buf : list ascii) :
  forall (n sent : nat) (st : conn),
    length buf - sent = n -> sent <= length buf ->
    exists evs : list event,
      log (snd (send_chunk net f buf sent st)) =
        log st ++ evs ++
        (if fst (send_chunk net f buf sent st) then []
         else [EvFclose (f_path f)]) /\
      (exists unsent : list ascii,
          skipn sent buf = wire evs ++ unsent /\
          (fst (send_chunk net f buf sent st) = true -> unsent = [])) /\
      Forall (fun e => exists d s,
                  e = EvSend d s /\ 1 <= length d <= length buf) evs.
Proof.
  induction n as [n IH] using lt_wf_ind. intros sent st Hn Hle.
  rewrite send_chunk_eq. destruct (sent <? length buf) eqn:E.
  - apply Nat.ltb_lt in E.
    destruct (send net (skipn sent buf) st) as [s st1] eqn:Es.
    destruct (send_log _ _ _ _ _ Es) as [Hlog _].
    assert (1 <= length (skipn sent buf) <= length buf) as Hd
      by (rewrite length_skipn; lia).
    destruct (s <? 0)%Z eqn:Eneg.
    + exists [EvSend (skipn sent buf) s]. cbn [fst snd fclose emit log].
      rewrite Hlog, <- app_assoc. repeat split.
      * exists (skipn sent buf). split; [|discriminate].
        cbn [wire flat_map accepted]. apply Z.ltb_lt in Eneg.
        replace (Z.to_nat s) with 0 by lia. reflexivity.
      * repeat constructor. exists (skipn sent buf), s. split; [reflexivity|].
        exact Hd.
    + assert (skipn sent buf <> []) as Hne.
      { intros H. rewrite H in Hd. simpl in Hd. lia. }
      pose proof (send_progress _ _ _ _ _ Es Hne Eneg) as Hs.
      rewrite length_skipn in Hs.
      destruct (IH (length buf - (sent + Z.to_nat s)) ltac:(lia)
                  (sent + Z.to_nat s) st1 eq_refl ltac:(lia))
        as (evs & Hevs & (unsent & Hwire & Hall) & Hoffer).
      exists (EvSend (skipn sent buf) s :: evs). repeat split.
      * rewrite Hevs, Hlog, <- app_assoc. reflexivity.
      * exists unsent. split; [|exact Hall].
        cbn [wire flat_map accepted]. fold (wire evs).
        rewrite <- app_assoc, <- Hwire, Nat.add_comm, <- skipn_skipn.
        symmetry. apply firstn_skipn.
      * constructor; [|exact Hoffer].
        exists (skipn sent buf), s. split; [reflexivity | exact Hd].
  - apply Nat.ltb_ge in E. exists []. cbn [fst snd].
    rewrite app_nil_r. repeat split.
    + exists []. split; [|reflexivity].
      rewrite skipn_all2 by lia. reflexivity.
    + constructor.
Qed.

Lemma send_body_shape :
  forall (n : nat) (f : FILE) (st : conn),
    length (f_data f) - f_pos f = n ->
    exists evs : list event,
      log (snd (send_body net f st)) =
        log st ++ evs ++
        (if fst (send_body net f st) then [] else [EvFclose (f_path f)]) /\
      (exists unsent : list ascii,
          skipn (f_pos f) (f_data f) = wire evs ++ unsent) /\
      Forall offers_chunk evs.
Proof.
  induction n as [n IH] using lt_wf_ind. intros f st Hn.
  rewrite send_body_eq. destruct (fread FILE_CHUNK f) as [buf f1] eqn:Er.
  destruct (fread_advances _ _ _ _ Er) as (Hdata & Hpos & Hle).
  destruct (fread_path _ _ _ _ Er) as (Hpath & Hbuf).
  assert (skipn (f_pos f) (f_data f) = buf ++ skipn (f_pos f1) (f_data f1))
    as Hsplit.
  { rewrite Hdata, Hpos, Nat.add_comm, <- skipn_skipn, Hbuf.
    symmetry. apply firstn_skipn_length. }
  assert (length buf <= FILE_CHUNK) as Hchunk
    by (rewrite Hbuf, length_firstn; lia).
  destruct (0 <? length buf) eqn:E.
  - apply Nat.ltb_lt in E.
    destruct (send_chunk_shape f1 buf (length buf - 0) 0 st eq_refl ltac:(lia))
      as (evs1 & Hlog1 & (unsent1 & Hwire1 & Hall1) & Hoffer1).
    rewrite skipn_O in Hwire1.
    assert (Forall offers_chunk evs1) as Hoff1.
    { eapply Forall_impl; [|exact Hoffer1].
      intros e (d & s & -> & Hd). cbn [offers_chunk]. lia. }
    destruct (send_chunk net f1 buf 0 st) as [sent_all st1] eqn:Ec.
    cbn [fst snd] in *. destruct sent_all.
    + rewrite (Hall1 eq_refl), !app_nil_r in *.
      destruct (IH (length (f_data f1) - f_pos f1)
                  ltac:(rewrite Hdata, Hpos; lia) f1 st1 eq_refl)
        as (evs2 & Hlog2 & (unsent2 & Hwire2) & Hoff2).
      exists (evs1 ++ evs2). repeat split.
      * rewrite Hlog2, Hlog1, Hpath, <- !app_assoc. reflexivity.
      * exists unsent2.
        rewrite Hsplit, Hwire2, Hwire1, wire_app, <- app_assoc. reflexivity.
      * apply Forall_app; split; assumption.
    + exists evs1. rewrite Hpath in Hlog1. repeat split; try assumption.
      exists (unsent1 ++ skipn (f_pos f1) (f_data f1)).
      rewrite Hsplit, Hwire1, <- app_assoc. reflexivity.
  - exists []. cbn [fst snd]. rewrite app_nil_r. repeat split.
    + exists (skipn (f_pos f) (f_data f)). reflexivity.
    + constructor.
Qed.

Lemma send_file_body_shape (fullpath : cstring) (isFallback : bool)
    (st : conn) (data : list ascii) :
  fs fullpath = Some data ->
  exists (s0 : Z) (body : list event),
    log (snd (send_file fs net fullpath isFallback st)) =
      log st ++
      [EvFopen fullpath true; EvSend (HEADER_200 fullpath (length data)) s0]
      ++ body ++ [EvFclose fullpath] /\
    (exists unsent : list ascii, data = wire body ++ unsent) /\
    Forall offers_chunk body.
Proof.
  intros Hfs. rewrite send_file_eq. unfold fopen. rewrite Hfs.
  cbv zeta. unfold bind at 1.
  change (ftell (fseek_end (mkFile fullpath data 0))) with (length data).
  change (fseek_set (fseek_end (mkFile fullpath data 0)))
    with (mkFile fullpath data 0).
  fold (HEADER_200 fullpath (length data)).
  destruct (send net (HEADER_200 fullpath (length data))
              (mkConn (sends st) (log st ++ [EvFopen fullpath true])))
    as [s0 st2] eqn:Es.
  destruct (send_log _ _ _ _ _ Es) as [Hlog2 _]. cbn [log] in Hlog2.
  destruct (send_body_shape (length data - 0) (mkFile fullpath data 0) st2
              eq_refl) as (body & Hlog & Hwire & Hoff).
  cbn [f_path f_data f_pos] in *. rewrite skipn_O in Hwire.
  exists s0, body. unfold bind.
  destruct (send_body net (mkFile fullpath data 0) st2) as [finished st3].
  cbn [fst snd] in *. repeat split; try assumption.
  destruct finished.
  - cbn [fclose emit snd log f_path].
    rewrite Hlog, Hlog2, app_nil_r, <- !app_assoc. reflexivity.
  - cbn [ret snd]. rewrite Hlog, Hlog2, <- !app_assoc. reflexivity.
Qed.

(** The events of [send_file], case by case. *)
Lemma send_file_shape (fullpath : cstring) (isFallback : bool) (st : conn) :
  exists evs : list event,
    log (snd (send_file fs net fullpath isFallback st)) = log st ++ evs /\
    match fs fullpath with
    | Some data =>
        exists s0 body,
          evs = [EvFopen fullpath true;
                 EvSend (HEADER_200 fullpath (length data)) s0]
                ++ body ++ [EvFclose fullpath] /\
          Forall (fun e => is_send e = true) body
    | None =>
        if isFallback
        then exists s1 s2,
            evs = [EvFopen fullpath false; EvSend HEADER_404 s1;
                   EvSend BODY_404 s2]
        else
          match fs FALLBACK_PATH with
          | Some data =>
              exists s0 body,
                evs = EvFopen fullpath false ::
                      [EvFopen FALLBACK_PATH true;
                       EvSend (HEADER_200 FALLBACK_PATH (length data)) s0]
                      ++ body ++ [EvFclose FALLBACK_PATH] /\
                Forall (fun e => is_send e = true) body
          | None =>
              exists s1 s2,
                evs = [EvFopen fullpath false; EvFopen FALLBACK_PATH false;
                       EvSend HEADER_404 s1; EvSend BODY_404 s2]
          end
    end.
Proof.
  destruct (fs fullpath) as [data|] eqn:Hfs.
  - destruct (send_file_opened fs net fullpath isFallback st data Hfs)
      as (s0 & body & Hlog & Hsend & _).
    eexists. split; [exact Hlog|]. exists s0, body. split; [reflexivity|].
    exact Hsend.
  - destruct (send_file_missing fs net fullpath isFallback st Hfs)
      as [Hl Heq].
    rewrite Heq. destruct isFallback.
    + destruct (send_404_log net (snd (fopen fs fullpath st)))
        as (s1 & s2 & H).
      eexists. split; [rewrite H, Hl, <- app_assoc; reflexivity|].
      exists s1, s2. reflexivity.
    + destruct (fs FALLBACK_PATH) as [data|] eqn:Hfb.
      * destruct (send_file_opened fs net FALLBACK_PATH true
                    (snd (fopen fs fullpath st)) data Hfb)
          as (s0 & body & Hlog & Hsend & _).
        eexists. split; [rewrite Hlog, Hl, <- app_assoc; reflexivity|].
        exists s0, body. split; [reflexivity | exact Hsend].
      * destruct (send_file_missing fs net FALLBACK_PATH true
                    (snd (fopen fs fullpath st)) Hfb) as [Hl2 Heq2].
        rewrite Heq2.
        destruct (send_404_log net
                    (snd (fopen fs FALLBACK_PATH (snd (fopen fs fullpath st)))))
          as (s1 & s2 & H).
        eexists. split; [rewrite H, Hl2, Hl, <- !app_assoc; reflexivity|].
        exists s1, s2. reflexivity.
Qed.

End ResponderShape.

Lemma count_sends_only (p : event -> bool) (evs : list event) :
  (forall e, is_send e = true -> p e = false) ->
  Forall (fun e => is_send e = true) evs -> count p evs = 0.
Proof.
  intros Hp. induction 1 as [|e evs He _ IH]; [reflexivity|].
  unfold count in *. simpl. rewrite (Hp e He). exact IH.
Qed.

(** X9. [send_file] always starts a response: the first thing it sends
    is the 200 header for the requested file when it opens, else (on the
    first attempt) the 200 header for the fallback document when that
    opens, else the 404 header. *)
Theorem send_file_always_answers
    (fs : cstring -> option (list ascii)) (net : nat -> send_outcome)
    (fullpath : cstring) (isFallback : bool) (st : conn) :
  exists evs : list event,
    log (snd (send_file fs net fullpath isFallback st)) = log st ++ evs /\
    first_sent evs =
      Some match fs fullpath with
           | Some data => HEADER_200 fullpath (length data)
           | None =>
               if isFallback then HEADER_404
               else match fs FALLBACK_PATH with
                    | Some data => HEADER_200 FALLBACK_PATH (length data)
                    | None => HEADER_404
                    end
           end.
Proof.
  destruct (send_file_shape fs net fullpath isFallback st) as (evs & Hlog & H).
  exists evs. split; [exact Hlog|].
  destruct (fs fullpath) as [data|].
  - destruct H as (s0 & body & -> & _). reflexivity.
  - destruct isFallback.
    + destruct H as (s1 & s2 & ->). reflexivity.
    + destruct (fs FALLBACK_PATH) as [data|].
      * destruct H as (s0 & body & -> & _). reflexivity.
      * destruct H as (s1 & s2 & ->). reflexivity.
Qed.

(** X10. [send_file] closes what it opens: on every path (file served,
    transfer aborted, fallback served, 404) the log has as many [fclose]
    as successful [fopen], at most one, and the file closed is the one
    that was opened; it opens at most two files. *)
Theorem send_file_closes_what_it_opens
    (fs : cstring -> option (list ascii)) (net : nat -> send_outcome)
    (fullpath : cstring) (isFallback : bool) (st : conn) :
  exists evs : list event,
    log (snd (send_file fs net fullpath isFallback st)) = log st ++ evs /\
    count is_fopen_ok evs = count is_fclose evs /\
    count is_fclose evs <= 1 /\
    1 <= count is_fopen evs <= 2 /\
    (forall path, In (EvFclose path) evs -> In (EvFopen path true) evs).
Proof.
  assert (forall (p : event -> bool) a body z,
             (forall e, is_send e = true -> p e = false) ->
             Forall (fun e => is_send e = true) body ->
             count p (a ++ body ++ z) = count p a + count p z) as Hcount.
  { intros p a body z Hp Hb.
    rewrite !count_app, (count_sends_only p body Hp Hb). lia. }
  assert (forall e, is_send e = true -> is_fopen_ok e = false) as H1
    by (intros []; simpl; congruence).
  assert (forall e, is_send e = true -> is_fclose e = false) as H2
    by (intros []; simpl; congruence).
  assert (forall e, is_send e = true -> is_fopen e = false) as H3
    by (intros []; simpl; congruence).
  assert (forall path a body z,
             Forall (fun e => is_send e = true) body ->
             In (EvFclose path) (a ++ body ++ z) ->
             In (EvFclose path) (a ++ z)) as Hin.
  { intros path a body z Hb H. apply in_app_or in H.
    destruct H as [H|H]; [apply in_or_app; left; exact H|].
    apply in_app_or in H. destruct H as [H|H];
      [|apply in_or_app; right; exact H].
    rewrite Forall_forall in Hb. specialize (Hb _ H). discriminate. }
  destruct (send_file_shape fs net fullpath isFallback st) as (evs & Hlog & H).
  exists evs. split; [exact Hlog|].
  destruct (fs fullpath) as [data|].
  - destruct H as (s0 & body & -> & Hb).
    rewrite !Hcount by assumption. repeat split; try (cbn; lia).
    intros path Hp. apply Hin in Hp; [|exact Hb].
    cbn in Hp. destruct Hp as [Hp|[Hp|[Hp|[]]]]; try discriminate.
    injection Hp as <-. left. reflexivity.
  - destruct isFallback.
    + destruct H as (s1 & s2 & ->). repeat split; try (cbn; lia).
      intros path Hp. cbn in Hp. intuition discriminate.
    + destruct (fs FALLBACK_PATH) as [data|].
      * destruct H as (s0 & body & -> & Hb).
        change (EvFopen fullpath false ::
                [EvFopen FALLBACK_PATH true;
                 EvSend (HEADER_200 FALLBACK_PATH (length data)) s0]
                ++ body ++ [EvFclose FALLBACK_PATH])
          with ([EvFopen fullpath false; EvFopen FALLBACK_PATH true;
                 EvSend (HEADER_200 FALLBACK_PATH (length data)) s0]
                ++ body ++ [EvFclose FALLBACK_PATH]).
        rewrite !Hcount by assumption. repeat split; try (cbn; lia).
        intros path Hp. apply Hin in Hp; [|exact Hb].
        cbn in Hp. destruct Hp as [Hp|[Hp|[Hp|[Hp|[]]]]]; try discriminate.
        injection Hp as <-. right. left. reflexivity.
      * destruct H as (s1 & s2 & ->). repeat split; try (cbn; lia).
        intros path Hp. cbn in Hp. intuition discriminate.
Qed.

(** X11. Whatever the transport does, the body bytes that reach the
    wire are an initial part of the file, in order: an aborted transfer
    never delivers bytes out of place or twice. *)
Theorem send_file_delivers_a_prefix
    (fs : cstring -> option (list ascii)) (net : nat -> send_outcome)
    (fullpath : cstring) (isFallback : bool) (st : conn) (data : list ascii) :
  fs fullpath = Some data ->
  exists (s0 : Z) (body : list event) (unsent : list ascii),
    log (snd (send_file fs net fullpath isFallback st)) =
      log st ++
      [EvFopen fullpath true; EvSend (HEADER_200 fullpath (length data)) s0]
      ++ body ++ [EvFclose fullpath] /\
    data = wire body ++ unsent.
Proof.
  intros Hfs.
  destruct (send_file_body_shape fs net fullpath isFallback st data Hfs)
    as (s0 & body & Hlog & (unsent & Hwire) & _).
  exists s0, body, unsent. split; assumption.
Qed.

Lemma send_file_delivers_a_prefix_witness :
  fs_index_only FALLBACK_PATH = Some (str "<h1>hi</h1>") /\
  exists (s0 : Z) (body : list event) (unsent : list ascii),
    log (snd (send_file fs_index_only net_fails_third FALLBACK_PATH false
                initial)) =
      log initial ++
      [EvFopen FALLBACK_PATH true;
       EvSend (HEADER_200 FALLBACK_PATH (length (str "<h1>hi</h1>"))) s0]
      ++ body ++ [EvFclose FALLBACK_PATH] /\
    str "<h1>hi</h1>" = wire body ++ unsent.
Proof.
  split; [reflexivity|].
  apply send_file_delivers_a_prefix. reflexivity.
Defined.

(** X12. Every send of the body offers at least one byte and at most
    one chunk of 1024 bytes, however large the file. *)
Theorem send_file_sends_chunks
    (fs : cstring -> option (list ascii)) (net : nat -> send_outcome)
    (fullpath : cstring) (isFallback : bool) (st : conn) (data : list ascii) :
  fs fullpath = Some data ->
  exists (s0 : Z) (body : list event),
    log (snd (send_file fs net fullpath isFallback st)) =
      log st ++
      [EvFopen fullpath true; EvSend (HEADER_200 fullpath (length data)) s0]
      ++ body ++ [EvFclose fullpath] /\
    Forall (fun e => exists d s, e = EvSend d s /\ 1 <= length d <= 1024) body.
Proof.
  intros Hfs.
  destruct (send_file_body_shape fs net fullpath isFallback st data Hfs)
    as (s0 & body & Hlog & _ & Hoff).
  exists s0, body. split; [exact Hlog|].
  eapply Forall_impl; [|exact Hoff].
  intros [] H; cbn [offers_chunk] in H; try contradiction.
  eexists _, _. split; [reflexivity|]. exact H.
Qed.

Lemma send_file_sends_chunks_witness :
  fs_index_only FALLBACK_PATH = Some (str "<h1>hi</h1>") /\
  exists (s0 : Z) (body : list event),
    log (snd (send_file fs_index_only net_bytewise FALLBACK_PATH false
                initial)) =
      log initial ++
      [EvFopen FALLBACK_PATH true;
       EvSend (HEADER_200 FALLBACK_PATH (length (str "<h1>hi</h1>"))) s0]
      ++ body ++ [EvFclose FALLBACK_PATH] /\
    Forall (fun e => exists d s, e = EvSend d s /\ 1 <= length d <= 1024) body.
Proof.
  split; [reflexivity|].
  apply send_file_sends_chunks. reflexivity.
Defined.

(** ** handle_client *)

Lemma cstr_app (a b : list ascii) : no_nul a -> cstr (a ++ b) = a ++ cstr b.
Proof.
  induction 1 as [|c a Hc _ IH]; [reflexivity|]. cbn [app cstr].
  apply Ascii.eqb_neq in Hc. rewrite Hc, IH. reflexivity.
Qed.

(** X13. Only the request target matters: for a request
    [method SP target SP rest] that fits the receive buffer, with a
    target shorter than 256 characters, the handler serves the sanitized
    target, whatever the method and whatever follows the target (version,
    headers, body). *)
Theorem handle_client_serves_request_target
    (fs : cstring -> option (list ascii)) (net : nat -> send_outcome)
    (st : conn) (method target rest : list ascii) :
  no_nul method -> no_nul target ->
  ~ In " "%char method -> ~ In " "%char target ->
  length (method ++ " "%char :: target ++ " "%char :: rest) <= RECV_BUF_LEN ->
  length target < PATH_BUF_SIZE ->
  log (snd (handle_client fs net
              (Some (method ++ " "%char :: target ++ " "%char :: rest)) st)) =
    log (snd (send_file fs net (sanitize_path (Some target) PATH_BUF_SIZE)
                false
                (mkConn (sends st)
                   (log st ++
                    [EvRecv (Z.of_nat
                               (length (method ++ " "%char :: target
                                        ++ " "%char :: rest)))]))))
    ++ [EvShutdown; EvClose].
Proof.
  intros Hm Ht Hsm Hst Hfit Hshort.
  set (buf := method ++ " "%char :: target ++ " "%char :: rest) in *.
  pose proof (handle_client_log fs net (Some buf) st) as H.
  cbv beta iota zeta in H.
  rewrite (firstn_all2 buf) in H by exact Hfit.
  assert (0 < length buf) as Hpos.
  { subst buf. rewrite length_app. simpl. lia. }
  destruct (Z.of_nat (length buf) <=? 0)%Z eqn:E;
    [apply Z.leb_le in E; lia|].
  rewrite H. subst buf.
  assert (cstr (method ++ " "%char :: target ++ " "%char :: rest) =
          method ++ " "%char :: target ++ " "%char :: cstr rest) as ->.
  { rewrite cstr_app by exact Hm. cbn [cstr].
    change (Ascii.eqb " " NUL) with false. cbv iota.
    rewrite cstr_app by exact Ht. reflexivity. }
  rewrite parse_request_path_token
    by (try assumption; unfold PATH_BUF_SIZE; lia).
  rewrite (firstn_all2 target) by (unfold PATH_BUF_SIZE in *; lia).
  reflexivity.
Qed.

Lemma handle_client_serves_request_target_witness :
  log (snd (handle_client fs_index_only net_whole
              (Some (str "POST" ++ " "%char :: str "/form" ++ " "%char ::
                     str "HTTP/1.0")) initial)) =
    log (snd (send_file fs_index_only net_whole
                (sanitize_path (Some (str "/form")) PATH_BUF_SIZE) false
                (mkConn (sends initial)
                   (log initial ++
                    [EvRecv (Z.of_nat
                               (length (str "POST" ++ " "%char :: str "/form"
                                        ++ " "%char :: str "HTTP/1.0")))]))))
    ++ [EvShutdown; EvClose].
Proof.
  apply handle_client_serves_request_target.
  - apply no_nul_forallb. reflexivity.
  - apply no_nul_forallb. reflexivity.
  - simpl. intuition discriminate.
  - simpl. intuition discriminate.
  - unfold RECV_BUF_LEN. simpl. lia.
  - unfold PATH_BUF_SIZE. simpl. lia.
Defined.

(** X14. In a run of the handler in which the header (the first
    [send]) is taken whole and no [send] reports an error, the bytes on
    the wire are [response]: they depend on the filesystem and on the
    bytes received only, not on the transport, which may split the
    chunks of the body in any way, nor on earlier runs. The body of the
    404 response is sent with a single [send]: when the 404 response is
    the answer, that [send] must have taken its buffer whole too. *)
Theorem handle_client_stream_is_response
    (fs : cstring -> option (list ascii)) (net : nat -> send_outcome)
    (rx : option (list ascii)) (st : conn) (evs : list event) :
  log (snd (handle_client fs net rx st)) = log st ++ evs ->
  first_send_whole evs = true ->
  no_send_error evs = true ->
  (first_sent evs = Some HEADER_404 -> all_sends_whole evs = true) ->
  wire evs = response fs rx.
Proof.
  intros Hlog Hfirst Hok Hall.
  destruct (handle_client_response fs net rx st) as (evs' & Hlog' & Hw).
  rewrite Hlog' in Hlog. apply app_inv_head in Hlog. subst evs'.
  exact (Hw Hfirst Hok Hall).
Qed.

Lemma handle_client_stream_is_response_witness :
  all_sends_whole
    (log (snd (handle_client fs_index_only net_whole_then_bytewise
                 (Some GET_ROOT) initial))) = false /\
  wire (log (snd (handle_client fs_index_only net_whole_then_bytewise
                    (Some GET_ROOT) initial))) =
    response fs_index_only (Some GET_ROOT).
Proof.
  split; [vm_compute; reflexivity|].
  apply (handle_client_stream_is_response fs_index_only
           net_whole_then_bytewise (Some GET_ROOT) initial).
  - reflexivity.
  - vm_compute. reflexivity.
  - vm_compute. reflexivity.
  - intros H. vm_compute in H. discriminate H.
Defined.

(** X15. Single-page fallback, end to end: when the requested file does
    not exist but the index document does, and in the run the header is
    taken whole and no [send] reports an error (the chunks of the body
    may be split), the answer is a 200 response of type
    [text/html; charset=utf-8] that declares the length of the index
    document and carries its bytes. *)
Theorem handle_client_falls_back_to_index
    (fs : cstring -> option (list ascii)) (net : nat -> send_outcome)
    (pending : list ascii) (st : conn) (data : list ascii)
    (evs : list event) :
  pending <> [] ->
  fs (sanitize_path
        (Some (parse_request_path (cstr (firstn RECV_BUF_LEN pending))
                 PATH_BUF_SIZE)) PATH_BUF_SIZE) = None ->
  fs FALLBACK_PATH = Some data ->
  (Z.of_nat (length data) <= LONG_MAX)%Z ->
  log (snd (handle_client fs net (Some pending) st)) = log st ++ evs ->
  first_send_whole evs = true ->
  no_send_error evs = true ->
  wire evs =
    str "HTTP/1.1 200 OK" ++ CRLF ++
    str "Content-Type: text/html; charset=utf-8" ++ CRLF ++
    str "Content-Length: " ++ decimal (length data) ++ CRLF ++
    str "Connection: close" ++ CRLF ++ CRLF ++ data.
Proof.
  intros Hne Hfs Hfb Hsize Hlog Hfirst Hok.
  destruct (send_file_wire fs net
              (sanitize_path
                 (Some (parse_request_path
                          (cstr (firstn RECV_BUF_LEN pending)) PATH_BUF_SIZE))
                 PATH_BUF_SIZE)
              (mkConn (sends st)
                 (log st ++
                  [EvRecv (Z.of_nat (length (firstn RECV_BUF_LEN pending)))])))
    as (fe & Hfe & Hcase).
  cbn [log] in Hfe. rewrite Hfs, Hfb in Hcase.
  rewrite (handle_client_serving fs net pending st fe Hne Hfe) in Hlog.
  apply app_inv_head in Hlog. subst evs.
  destruct (serving_readings
              (Z.of_nat (length (firstn RECV_BUF_LEN pending))) fe)
    as (Hw & Hf & Ho & _).
  rewrite Hw, (Hcase (Hf Hfirst) (Ho Hok)), header_200_whole by exact Hsize.
  unfold header_200_text.
  change (get_mime_type FALLBACK_PATH) with (str "text/html; charset=utf-8").
  rewrite <- !app_assoc. reflexivity.
Qed.

Lemma handle_client_falls_back_to_index_witness :
  wire (log (snd (handle_client fs_index_only net_whole_then_bytewise
                    (Some (str "GET /missing-page HTTP/1.1")) initial))) =
    str "HTTP/1.1 200 OK" ++ CRLF ++
    str "Content-Type: text/html; charset=utf-8" ++ CRLF ++
    str "Content-Length: " ++ decimal (length (str "<h1>hi</h1>")) ++ CRLF ++
    str "Connection: close" ++ CRLF ++ CRLF ++ str "<h1>hi</h1>".
Proof.
  apply (handle_client_falls_back_to_index fs_index_only
           net_whole_then_bytewise
           (str "GET /missing-page HTTP/1.1") initial).
  - discriminate.
  - vm_compute. reflexivity.
  - reflexivity.
  - vm_compute. discriminate.
  - reflexivity.
  - vm_compute. reflexivity.
  - vm_compute. reflexivity.
Defined.



(** ** http_server_task *)

(** One run of the handler on a fresh connection: one [recv], one
    [close]. *)
Lemma handle_client_counts (fs : cstring -> option (list ascii))
    (net : nat -> send_outcome) (rx : option (list ascii)) :
  count is_recv (log (snd (handle_client fs net rx initial))) = 1 /\
  count is_close (log (snd (handle_client fs net rx initial))) = 1.
Proof.
  pose proof (handle_client_log fs net rx initial) as H.
  cbv beta iota zeta in H.
  match type of H with
  | if ?c then _ else _ => destruct c
  end.
  - rewrite H. split; reflexivity.
  - match type of H with
    | _ = log (snd (send_file _ _ ?p _ ?st1)) ++ _ =>
        destruct (send_file_events fs net p false st1) as (fe & Hfe & Hall)
    end.
    rewrite H, Hfe. cbn [log initial].
    rewrite !count_app.
    rewrite (count_file_or_send is_recv fe), (count_file_or_send is_close fe);
      try assumption; try (intros []; simpl; congruence).
    split; reflexivity.
Qed.

Lemma client_log_app (k : nat) (a b : list task_event) :
  client_log k (a ++ b) = client_log k a ++ client_log k b.
Proof. apply flat_map_app. Qed.

Lemma client_log_map (k j : nat) (l : list event) :
  client_log k (map (TClient j) l) = if j =? k then l else [].
Proof.
  induction l as [|e l IH]; cbn [map client_log flat_map].
  - destruct (j =? k); reflexivity.
  - fold (client_log k (map (TClient j) l)). rewrite IH.
    destruct (j =? k); reflexivity.
Qed.

Lemma accept_loop_earlier (fs : cstring -> option (list ascii))
    (accepts : list accept_outcome) :
  forall c j : nat, j < c -> client_log j (accept_loop fs c accepts) = [].
Proof.
  induction accepts as [|[|net rx] more IH]; intros c j Hj;
    cbn [accept_loop]; [reflexivity | |].
  - change (TAccept false :: accept_loop fs c more)
      with ([TAccept false] ++ accept_loop fs c more).
    rewrite client_log_app, IH by exact Hj. reflexivity.
  - change (TAccept true ::
            map (TClient c) (log (snd (handle_client fs net rx initial)))
            ++ accept_loop fs (S c) more)
      with ([TAccept true] ++
            map (TClient c) (log (snd (handle_client fs net rx initial)))
            ++ accept_loop fs (S c) more).
    rewrite !client_log_app, client_log_map, IH by lia.
    replace (c =? j) with false by (symmetry; apply Nat.eqb_neq; lia).
    reflexivity.
Qed.

Lemma accept_loop_client_log (fs : cstring -> option (list ascii))
    (accepts : list accept_outcome) :
  forall c k : nat,
    client_log (c + k) (accept_loop fs c accepts) =
      match nth_error (connections accepts) k with
      | Some (net, rx) => log (snd (handle_client fs net rx initial))
      | None => []
      end.
Proof.
  induction accepts as [|[|net rx] more IH]; intros c k; cbn [accept_loop].
  - destruct k; reflexivity.
  - change (TAccept false :: accept_loop fs c more)
      with ([TAccept false] ++ accept_loop fs c more).
    rewrite client_log_app, IH. reflexivity.
  - change (TAccept true ::
            map (TClient c) (log (snd (handle_client fs net rx initial)))
            ++ accept_loop fs (S c) more)
      with ([TAccept true] ++
            map (TClient c) (log (snd (handle_client fs net rx initial)))
            ++ accept_loop fs (S c) more).
    rewrite !client_log_app, client_log_map.
    cbn [connections flat_map app]. fold (connections more).
    destruct k as [|k].
    + rewrite Nat.add_0_r, Nat.eqb_refl.
      rewrite accept_loop_earlier by lia. cbn [nth_error].
      rewrite app_nil_r. reflexivity.
    + replace (c =? c + S k) with false by (symmetry; apply Nat.eqb_neq; lia).
      replace (c + S k) with (S c + k) by lia.
      rewrite IH. reflexivity.
Qed.

Lemma accept_loop_counts (fs : cstring -> option (list ascii))
    (accepts : list accept_outcome) :
  forall c : nat,
    tcount is_taccept (accept_loop fs c accepts) = length accepts /\
    tcount is_tclose_listen (accept_loop fs c accepts) = 0 /\
    tcount is_ttask_delete (accept_loop fs c accepts) = 0.
Proof.
  assert (forall (p : task_event -> bool) c l,
             (forall e, p (TClient c e) = false) ->
             filter p (map (TClient c) l) = []) as Hmap.
  { intros p c l Hp. induction l as [|e l IH]; [reflexivity|].
    cbn [map filter]. rewrite Hp. exact IH. }
  induction accepts as [|[|net rx] more IH]; intros c; cbn [accept_loop].
  - repeat split.
  - destruct (IH c) as (H1 & H2 & H3). unfold tcount in *.
    cbn [filter is_taccept is_tclose_listen is_ttask_delete length].
    rewrite H1, H2, H3. repeat split.
  - destruct (IH (S c)) as (H1 & H2 & H3). unfold tcount in *.
    cbn [filter is_taccept is_tclose_listen is_ttask_delete length].
    rewrite !filter_app, !Hmap by reflexivity. cbn [app length].
    rewrite H1, H2, H3. repeat split.
Qed.

Lemma client_ids_map (c : nat) (l : list event) (rest : list task_event) :
  client_ids (map (TClient c) l ++ rest) =
    map (fun _ => c) l ++ client_ids rest.
Proof.
  induction l as [|e l IH]; [reflexivity|].
  cbn [map app client_ids flat_map]. fold (client_ids (map (TClient c) l ++ rest)).
  rewrite IH. reflexivity.
Qed.

Lemma accept_loop_in_order (fs : cstring -> option (list ascii))
    (accepts : list accept_outcome) :
  forall c : nat,
    StronglySorted le (client_ids (accept_loop fs c accepts)) /\
    Forall (le c) (client_ids (accept_loop fs c accepts)).
Proof.
  induction accepts as [|[|net rx] more IH]; intros c; cbn [accept_loop].
  - split; constructor.
  - exact (IH c).
  - change (client_ids
              (TAccept true ::
               map (TClient c) (log (snd (handle_client fs net rx initial)))
               ++ accept_loop fs (S c) more))
      with (client_ids
              (map (TClient c) (log (snd (handle_client fs net rx initial)))
               ++ accept_loop fs (S c) more)).
    rewrite client_ids_map. destruct (IH (S c)) as [Hs Hall].
    assert (Forall (le c) (client_ids (accept_loop fs (S c) more))) as Hc.
    { eapply Forall_impl; [|exact Hall]. intros a Ha. lia. }
    generalize (log (snd (handle_client fs net rx initial))) as l.
    induction l as [|e l [IHs IHa]]; cbn [map app].
    + split; assumption.
    + split; constructor; try assumption. lia.
Qed.

(** X17. When [socket], [bind] or [listen] fails, the task accepts no
    connection and serves nothing; it ends with [vTaskDelete], after
    closing the listening socket exactly when it had been created. *)
Theorem http_server_task_setup_failure
    (fs : cstring -> option (list ascii)) (setup : listen_setup)
    (accepts : list accept_outcome) :
  socket_ok setup && bind_ok setup && listen_ok setup = false ->
  tcount is_taccept (http_server_task fs setup accepts) = 0 /\
  tcount is_tclient (http_server_task fs setup accepts) = 0 /\
  tcount is_ttask_delete (http_server_task fs setup accepts) = 1 /\
  last (http_server_task fs setup accepts) TSetsockopt = TTaskDelete /\
  tcount is_tclose_listen (http_server_task fs setup accepts) =
    if socket_ok setup then 1 else 0.
Proof.
  destruct setup as [[] [] []]; cbn [socket_ok bind_ok listen_ok andb];
    intros H; try discriminate H; repeat split.
Qed.

Lemma http_server_task_setup_failure_witness :
  tcount is_taccept
    (http_server_task fs_index_only (mkSetup true false true)
       [Accepted net_whole (Some GET_ROOT)]) = 0 /\
  tcount is_tclient
    (http_server_task fs_index_only (mkSetup true false true)
       [Accepted net_whole (Some GET_ROOT)]) = 0 /\
  tcount is_ttask_delete
    (http_server_task fs_index_only (mkSetup true false true)
       [Accepted net_whole (Some GET_ROOT)]) = 1 /\
  last (http_server_task fs_index_only (mkSetup true false true)
          [Accepted net_whole (Some GET_ROOT)]) TSetsockopt = TTaskDelete /\
  tcount is_tclose_listen
    (http_server_task fs_index_only (mkSetup true false true)
       [Accepted net_whole (Some GET_ROOT)]) = 1.
Proof.
  apply (http_server_task_setup_failure fs_index_only
           (mkSetup true false true) [Accepted net_whole (Some GET_ROOT)]).
  reflexivity.
Defined.

(** X18. Once the socket listens, the task goes on for ever: it never
    closes the listening socket nor deletes itself, and it calls
    [accept] again after every outcome, a failed [accept] included. The
    calls on the k-th accepted connection are exactly those of one run of
    [handle_client] on it, so that every accepted connection is received
    from once and closed once; and connections are served one after the
    other, in the order of their acceptance. *)
Theorem http_server_task_serves_each_connection
    (fs : cstring -> option (list ascii)) (setup : listen_setup)
    (accepts : list accept_outcome) :
  socket_ok setup = true -> bind_ok setup = true -> listen_ok setup = true ->
  tcount is_taccept (http_server_task fs setup accepts) = length accepts /\
  tcount is_tclose_listen (http_server_task fs setup accepts) = 0 /\
  tcount is_ttask_delete (http_server_task fs setup accepts) = 0 /\
  (forall k : nat,
      client_log k (http_server_task fs setup accepts) =
        match nth_error (connections accepts) k with
        | Some (net, rx) => log (snd (handle_client fs net rx initial))
        | None => []
        end) /\
  (forall k : nat,
      k < length (connections accepts) ->
      count is_recv (client_log k (http_server_task fs setup accepts)) = 1 /\
      count is_close (client_log k (http_server_task fs setup accepts)) = 1) /\
  StronglySorted le (client_ids (http_server_task fs setup accepts)).
Proof.
  intros Hs Hb Hl. unfold http_server_task. rewrite Hs, Hb, Hl.
  cbn [negb].
  pose proof (proj1 (accept_loop_in_order fs accepts 0)) as Hsorted.
  destruct (accept_loop_counts fs accepts 0) as (H1 & H2 & H3).
  assert (forall k,
             client_log k
               (TSocket true :: TSetsockopt :: TBind true :: TListen true ::
                accept_loop fs 0 accepts) =
               match nth_error (connections accepts) k with
               | Some (net, rx) => log (snd (handle_client fs net rx initial))
               | None => []
               end) as Hk.
  { intros k. rewrite <- (accept_loop_client_log fs accepts 0 k).
    reflexivity. }
  repeat split; try assumption.
  - rewrite Hk. destruct (nth_error (connections accepts) k) as [[net rx]|] eqn:E.
    + apply handle_client_counts.
    + apply nth_error_None in E. lia.
  - rewrite Hk. destruct (nth_error (connections accepts) k) as [[net rx]|] eqn:E.
    + apply handle_client_counts.
    + apply nth_error_None in E. lia.
Qed.

Lemma http_server_task_serves_each_connection_witness :
  tcount is_taccept
    (http_server_task fs_index_only (mkSetup true true true)
       [AcceptFail; Accepted net_bytewise (Some GET_ROOT); AcceptFail;
        Accepted net_whole None]) = 4 /\
  count is_close
    (client_log 1
       (http_server_task fs_index_only (mkSetup true true true)
          [AcceptFail; Accepted net_bytewise (Some GET_ROOT); AcceptFail;
           Accepted net_whole None])) = 1.
Proof.
  destruct (http_server_task_serves_each_connection fs_index_only
              (mkSetup true true true)
              [AcceptFail; Accepted net_bytewise (Some GET_ROOT); AcceptFail;
               Accepted net_whole None] eq_refl eq_refl eq_refl)
    as (H1 & _ & _ & _ & H5 & _).
  split; [exact H1|]. apply H5. simpl. lia.
Defined.
